(** * ksql-go client: a shallow embedding of [client.go]

    The client talks to a remote service over HTTP.  Everything the
    service and the transport do is outside the program, so the embedding
    threads a log of the calls the program makes to its environment and
    takes every reply from an oracle that sees the calls made so far.
    Go panics are an explicit outcome. *)

From Stdlib Require Import ZArith.
From stdpp Require Import gmap strings list.

Local Open Scope string_scope.
Local Open Scope list_scope.

(** ** Go values *)

Module Json.

#[local] Set Warnings "-register-all".

(** A value as [encoding/json] hands it over in an [interface{}]. *)
Inductive value : Type :=
| JNull
| JBool (b : bool)
| JNumber (literal : string)
| JString (s : string)
| JArray (elems : list value)
| JObject (fields : list (string * value)).

(** [map[string]interface{}], in document order; the nil map is []. *)
Definition object := list (string * value).

(** [m[k]] with the comma-ok form: a repeated key keeps its last value. *)
Fixpoint lookup (k : string) (m : object) : option value :=
  match m with
  | [] => None
  | (k', v) :: rest =>
      match lookup k rest with
      | Some w => Some w
      | None => if String.eqb k k' then Some v else None
      end
  end.

(** The bytes of a body: [None] when they are not one JSON document. *)
Definition document := option value.

End Json.

Import Json.

(** The error values the client hands back. *)
Inductive error : Type :=
| ErrMsg (msg : string)
| ErrWrap (prefix : string) (cause : error)
| QueryError (result : Json.object).

Inductive result (A : Type) : Type :=
| Ok (a : A)
| Err (e : error).
Arguments Ok {A} a.
Arguments Err {A} e.

Inductive panic_reason : Type :=
| IndexOutOfRange (index len : nat)
| InterfaceConversion
| SendOnClosedChannel
| CloseOfClosedChannel.

(** How a run ends: with a value, with a panic, or not within the number
    of loop iterations the run was given. *)
Inductive outcome (A : Type) : Type :=
| Done (a : A)
| Panicked (p : panic_reason)
| Unfinished.
Arguments Done {A} a.
Arguments Panicked {A} p.
Arguments Unfinished {A}.

(** ** Payloads and requests *)

Record QueryPayload := {
  qp_KSQL : string;
  qp_StreamsProperties : Json.object
}.

Record QueryStreamPayload := {
  qsp_KSQL : string;
  qsp_Properties : list (string * string)
}.

Record CloseQueryPayload := { QueryID : string }.

Record InsertsStreamTargetPayload := { Target : string }.

Record InsertsStreamAck := { Status : string; Seq : Z }.

Record QueryResultHeader := {
  hdr_QueryID : string;
  ColumnNames : list string;
  ColumnTypes : list string
}.

(** What a [json.Encoder] is asked to encode. *)
Inductive frame : Type :=
| EncQuery (p : QueryPayload)
| EncQueryStream (p : QueryStreamPayload)
| EncCloseQuery (p : CloseQueryPayload)
| EncTarget (p : InsertsStreamTargetPayload)
| EncRecord (v : Json.value).

(** Byte sources and sinks the program holds: response bodies and the two
    ends of an [io.Pipe]. *)
Inductive handle : Type :=
| Body (id : nat)
| PipeReader (id : nat)
| PipeWriter (id : nat).

Inductive ReqBody : Type :=
| BufBody (f : frame)
| PipeBody (pr : handle)
| NilBody.

Record Request := {
  req_method : string;
  req_url : string;
  req_body : ReqBody
}.

Record Response := { resp_Body : handle }.

(** ** The environment *)

Inductive call : Type :=
| CallPipe
| CallDo (req : Request)
| CallReadAll (h : handle)
| CallDecodeHeader (h : handle)
| CallRead (h : handle)
| CallWrite (h : handle) (f : frame)
| CallClose (h : handle).

Inductive read_result : Type :=
| ReadData (n : nat)
| ReadEOF
| ReadErr (e : error).

(** Every reply may depend on the calls made before it. *)
Record Env := {
  on_Pipe : list call -> nat;
  on_Do : list call -> Request -> result Response;
  on_ReadAll : list call -> handle -> Json.document;
  on_DecodeHeader : list call -> handle -> result QueryResultHeader;
  on_Read : list call -> handle -> read_result;
  on_Write : list call -> handle -> frame -> option error;
  on_Close : list call -> handle -> option error
}.

(** Code and constants that [client.go] uses and does not define. *)
Record Deps := {
  makeRequest : string -> string -> string -> ReqBody -> result Request;
  parseSchemaKeys : string -> list string;
  (* the error of encoding a value as JSON, if any *)
  marshal : frame -> option error;
  (* [json.Unmarshal(b, &ack)] on a fresh [ack]: what [ack] holds
     afterwards, and the error *)
  Unmarshal_ack : string -> InsertsStreamAck * option error;
  queryPath : string;
  queryStreamPath : string;
  closeQueryPath : string;
  insertsStreamPath : string
}.

(** ** Programs: a state, and a result or a panic *)

Definition ST (S A : Type) : Type := S -> S * outcome A.

Definition ret {S A} (a : A) : ST S A := fun s => (s, Done a).

Definition bind {S A B} (m : ST S A) (k : A -> ST S B) : ST S B :=
  fun s =>
    match m s with
    | (s', Done a) => k a s'
    | (s', Panicked p) => (s', Panicked p)
    | (s', Unfinished) => (s', Unfinished)
    end.

(** [defer d; body]: [d] runs when [body] is over, also when it panicked. *)
Definition defer {S A B} (d : ST S B) (body : ST S A) : ST S A :=
  fun s =>
    match body s with
    | (s', Unfinished) => (s', Unfinished)
    | (s', o) =>
        match d s' with
        | (s'', Done _) => (s'', o)
        | (s'', Panicked p) => (s'', Panicked p)
        | (s'', Unfinished) => (s'', Unfinished)
        end
    end.

Notation "'let*' x ':=' m 'in' k" := (bind m (fun x => k))
  (at level 10, x name, m at level 100, k at level 200).

(** Programs that talk to the environment carry the log of their calls. *)
Definition M (A : Type) : Type := ST (list call) A.

Definition perform {A} (c : call) (reply : list call -> A) : M A :=
  fun log => (log ++ [c], Done (reply log)).

Definition http_MethodPost : string := "POST".

(** ** Row schema and the two query paths *)

Record columns := { count : Z; names : list string }.

Record QueryRows := { res : list Json.object; qr_columns : columns }.

(** [json.Unmarshal(by, &m)] for a fresh [m map[string]interface{}]. *)
Definition Unmarshal_map (by_ : Json.document) : result Json.object :=
  match by_ with
  | None => Err (ErrMsg "invalid character")
  | Some JNull => Ok []
  | Some (JObject fields) => Ok fields
  | Some _ => Err (ErrMsg "json: cannot unmarshal into Go value of type map[string]interface {}")
  end.

(** One element of a [[]map[string]interface{}]. *)
Definition Unmarshal_elem (v : Json.value) : option Json.object :=
  match v with
  | JNull => Some []
  | JObject fields => Some fields
  | _ => None
  end.

Fixpoint Unmarshal_elems (vs : list Json.value) : option (list Json.object) :=
  match vs with
  | [] => Some []
  | v :: rest =>
      match Unmarshal_elem v, Unmarshal_elems rest with
      | Some m, Some ms => Some (m :: ms)
      | _, _ => None
      end
  end.

(** [json.Unmarshal(by, &s)] for a fresh [s []map[string]interface{}]. *)
Definition Unmarshal_maps (by_ : Json.document) : result (list Json.object) :=
  match by_ with
  | None => Err (ErrMsg "invalid character")
  | Some JNull => Ok []
  | Some (JArray elems) =>
      match Unmarshal_elems elems with
      | Some ms => Ok ms
      | None => Err (ErrMsg "json: cannot unmarshal into Go value of type map[string]interface {}")
      end
  | Some _ => Err (ErrMsg "json: cannot unmarshal into Go value of type []map[string]interface {}")
  end.

Record queryStreamReadCloser := {
  queryID : string;
  qs_body : handle;
  (* the client pointer, as what [CloseQuery] reads through it *)
  qs_client_baseURL : string
}.

Record QueryStreamRows := {
  rows_body : queryStreamReadCloser;
  rows_dec : handle;
  rows_columns : columns
}.

Record InsertsStreamCloser := { closer_req : handle; closer_resp : handle }.

(** A Go channel as its producer sees it: what was sent, and whether it
    was closed. *)
Record chan (A : Type) := {
  capacity : nat;
  sent : list A;
  closed : bool
}.
Arguments capacity {A} c.
Arguments sent {A} c.
Arguments closed {A} c.

Definition make_chan (A : Type) (cap : nat) : chan A :=
  {| capacity := cap; sent := []; closed := false |}.

Record InsertsStreamWriter := {
  enc : handle;
  ackMap : gmap Z string;
  curr : Z;
  ackCh : chan InsertsStreamAck;
  errCh : chan error;
  closer : InsertsStreamCloser
}.

(** Slices of pointers: [None] is a nil entry. *)
Record Client := {
  baseURL : string;
  rows : list (option QueryStreamRows);
  insertsStreamWriters : list (option InsertsStreamWriter)
}.

Section Programs.

Context (deps : Deps) (env : Env).

Definition http_Do (req : Request) : M (result Response) :=
  perform (CallDo req) (fun log => on_Do env log req).

Definition ioutil_ReadAll (h : handle) : M Json.document :=
  perform (CallReadAll h) (fun log => on_ReadAll env log h).

Definition Decode_header (h : handle) : M (result QueryResultHeader) :=
  perform (CallDecodeHeader h) (fun log => on_DecodeHeader env log h).

Definition Read (h : handle) : M read_result :=
  perform (CallRead h) (fun log => on_Read env log h).

Definition Write (h : handle) (f : frame) : M (option error) :=
  perform (CallWrite h f) (fun log => on_Write env log h f).

Definition Close (h : handle) : M (option error) :=
  perform (CallClose h) (fun log => on_Close env log h).

Definition io_Pipe : M (handle * handle) :=
  perform CallPipe (fun log => (PipeReader (on_Pipe env log), PipeWriter (on_Pipe env log))).

(** *** Query (client.go 61-100) *)

(** Lines 85-95: the schema found in the first result, if any. *)
Definition Query_columns (first : Json.object) : outcome columns :=
  let cols := {| count := (-1)%Z; names := [] |} in
  match Json.lookup "header" first with
  | Some (JObject headerMap) =>
      match Json.lookup "schema" headerMap with
      | Some (JString schema) =>
          let names' := parseSchemaKeys deps schema in
          Done {| count := Z.of_nat (length names'); names := names' |}
      | Some _ => Panicked InterfaceConversion
      | None => Done cols
      end
  | _ => Done cols
  end.

(** Lines 77-99, on the bytes read from the body. *)
Definition Query_decode (by_ : Json.document) : outcome (result QueryRows) :=
  match Unmarshal_map by_ with
  | Ok statementError => Done (Err (QueryError statementError))
  | Err _ =>
      match Unmarshal_maps by_ with
      | Err e => Done (Err e)
      | Ok resultsRaw =>
          match resultsRaw with
          | [] => Panicked (IndexOutOfRange 0 0)
          | first :: rest =>
              match Query_columns first with
              | Done cols => Done (Ok {| res := rest; qr_columns := cols |})
              | Panicked p => Panicked p
              | Unfinished => Unfinished
              end
          end
      end
  end.

Definition Query (c : Client) (payload : QueryPayload) : M (result QueryRows) :=
  match marshal deps (EncQuery payload) with
  | Some e => ret (Err e)
  | None =>
      match makeRequest deps (baseURL c) (queryPath deps) http_MethodPost
              (BufBody (EncQuery payload)) with
      | Err e => ret (Err e)
      | Ok req =>
          let* r := http_Do req in
          match r with
          | Err e => ret (Err (ErrWrap "unable to get response" e))
          | Ok resp =>
              defer (Close (resp_Body resp))
                (let* by_ := ioutil_ReadAll (resp_Body resp) in
                 fun log => (log, Query_decode by_))
          end
      end
  end.

(** *** QueryStream (client.go 344-378) *)

Definition QueryStream (c : Client) (payload : QueryStreamPayload)
  : M (Client * result QueryStreamRows) :=
  match marshal deps (EncQueryStream payload) with
  | Some e => ret (c, Err e)
  | None =>
      match makeRequest deps (baseURL c) (queryStreamPath deps) http_MethodPost
              (BufBody (EncQueryStream payload)) with
      | Err e => ret (c, Err e)
      | Ok req =>
          let* r := http_Do req in
          match r with
          | Err e => ret (c, Err (ErrWrap "unable to get response" e))
          | Ok resp =>
              let* h := Decode_header (resp_Body resp) in
              match h with
              | Err e => ret (c, Err e)
              | Ok header =>
                  let r :=
                    {| rows_body := {| queryID := hdr_QueryID header;
                                       qs_body := resp_Body resp;
                                       qs_client_baseURL := baseURL c |};
                       rows_dec := resp_Body resp;
                       rows_columns :=
                         {| count := Z.of_nat (length (ColumnNames header));
                            names := ColumnNames header |} |} in
                  ret ({| baseURL := baseURL c;
                          rows := rows c ++ [Some r];
                          insertsStreamWriters := insertsStreamWriters c |},
                       Ok r)
              end
          end
      end
  end.

(** *** CloseQuery and the row reader's body (client.go 336-341, 386-399) *)

Definition CloseQuery (c_baseURL : string) (payload : CloseQueryPayload)
  : M (option error) :=
  match marshal deps (EncCloseQuery payload) with
  | Some e => ret (Some e)
  | None =>
      match makeRequest deps c_baseURL (closeQueryPath deps) http_MethodPost
              (BufBody (EncCloseQuery payload)) with
      | Err e => ret (Some e)
      | Ok req =>
          let* r := http_Do req in
          match r with
          | Err e => ret (Some e)
          | Ok _ => ret None
          end
      end
  end.

Definition queryStreamReadCloser_Close (q : queryStreamReadCloser)
  : M (option error) :=
  let* err := CloseQuery (qs_client_baseURL q) {| QueryID := queryID q |} in
  match err with
  | Some e => ret (Some e)
  | None => Close (qs_body q)
  end.

(** *** InsertsStreamCloser.Close (client.go 419-430) *)

(** [io.Copy(ioutil.Discard, src)]: read until end of input or an error.
    [fuel] bounds the reads of one run. *)
Fixpoint io_Copy_Discard (fuel : nat) (src : handle) : M (option error) :=
  match fuel with
  | O => fun log => (log, Unfinished)
  | S fuel' =>
      let* r := Read src in
      match r with
      | ReadData _ => io_Copy_Discard fuel' src
      | ReadEOF => ret None
      | ReadErr e => ret (Some e)
      end
  end.

Definition InsertsStreamCloser_Close (fuel : nat) (i : InsertsStreamCloser)
  : M (option error) :=
  let* err := Close (closer_req i) in
  match err with
  | Some e => ret (Some e)
  | None =>
      let* err := io_Copy_Discard fuel (closer_resp i) in
      match err with
      | Some e => ret (Some e)
      | None =>
          let* err := Close (closer_resp i) in
          match err with
          | Some e => ret (Some e)
          | None => ret None
          end
      end
  end.

(** *** InsertsStream (client.go 433-481) *)

(** [enc.Encode(v)] on an encoder that writes to [w]. *)
Definition Encoder_Encode (w : handle) (f : frame) : M (option error) :=
  match marshal deps f with
  | Some e => ret (Some e)
  | None => Write w f
  end.

(** The encode of the target runs in its own goroutine while [Do] is in
    flight; its call is logged where [g.Wait()] joins it.  When [Do]
    fails the function returns without joining. *)
Definition InsertsStream (c : Client) (payload : InsertsStreamTargetPayload)
  : M (Client * result InsertsStreamWriter) :=
  let* p := io_Pipe in
  let pr := fst p in
  let pw := snd p in
  match makeRequest deps (baseURL c) (insertsStreamPath deps) http_MethodPost
          (PipeBody pr) with
  | Err e => ret (c, Err e)
  | Ok req =>
      let ackCh_ := make_chan InsertsStreamAck 0 in
      let ackMap_ : gmap Z string := ∅ in
      let errCh_ := make_chan error 1 in
      let* r := http_Do req in
      match r with
      | Err e => ret (c, Err e)
      | Ok res_ =>
          let* werr := Encoder_Encode pw (EncTarget payload) in
          match werr with
          | Some e => ret (c, Err e)
          | None =>
              let i :=
                {| enc := pw;
                   ackMap := ackMap_;
                   curr := 0%Z;
                   ackCh := ackCh_;
                   errCh := errCh_;
                   closer := {| closer_req := pr;
                                closer_resp := resp_Body res_ |} |} in
              ret ({| baseURL := baseURL c;
                      rows := rows c;
                      insertsStreamWriters :=
                        insertsStreamWriters c ++ [Some i] |},
                   Ok i)
          end
      end
  end.

(** *** Methods of the two stream types *)

(** Modelled from the spec: [QueryStreamRows.Close] is not in
    [client.go].  Spec 4.1: Close first issues the terminate-query
    request, then releases the byte source; that is the [Close] of the
    reader's body. *)
Definition QueryStreamRows_Close (r : QueryStreamRows) : M (option error) :=
  queryStreamReadCloser_Close (rows_body r).

(** Modelled from the spec: [InsertsStreamWriter.Close] is not in
    [client.go].  Spec 4.2: Close closes the outbound byte path, drains
    the response body and closes it; that is the [Close] of the stream's
    closer. *)
Definition InsertsStreamWriter_Close (fuel : nat) (w : InsertsStreamWriter)
  : M (option error) :=
  InsertsStreamCloser_Close fuel (closer w).

(** Modelled from the spec: the insert operation of [InsertsStreamWriter]
    is not in [client.go].  Spec 4.2: Insert assigns the next sequence
    number (starting at 0, strictly increasing, never reused), records a
    Pending Insert under that number, encodes the record to the outbound
    path, and returns the assigned sequence number.  [pending] is what the
    table stores for an insert that is not acknowledged yet. *)
Definition Insert (pending : string) (w : InsertsStreamWriter)
    (record : Json.value) : M (InsertsStreamWriter * result Z) :=
  let seq := curr w in
  let w' :=
    {| enc := enc w;
       ackMap := <[seq := pending]> (ackMap w);
       curr := (seq + 1)%Z;
       ackCh := ackCh w;
       errCh := errCh w;
       closer := closer w |} in
  let* err := Encoder_Encode (enc w) (EncRecord record) in
  match err with
  | Some e => ret (w', Err e)
  | None => ret (w', Ok seq)
  end.

(** Sequential [Insert] calls, with what each returned. *)
Fixpoint Insert_all (pending : string) (w : InsertsStreamWriter)
    (records : list Json.value) : M (InsertsStreamWriter * list (result Z)) :=
  match records with
  | [] => ret (w, [])
  | record :: rest =>
      let* r := Insert pending w record in
      let* rs := Insert_all pending (fst r) rest in
      ret (fst rs, snd r :: snd rs)
  end.

(** *** Client.Close (client.go 560-578) *)

(** One [for _, m := range members] loop of [Close]. *)
Fixpoint range_Close {A} (close_member : A -> M (option error))
    (members : list (option A)) : M (option error) :=
  match members with
  | [] => ret None
  | None :: rest => range_Close close_member rest
  | Some m :: rest =>
      let* err := close_member m in
      match err with
      | Some e => ret (Some e)
      | None => range_Close close_member rest
      end
  end.

Definition Client_Close (fuel : nat) (c : Client) : M (option error) :=
  let* err := range_Close QueryStreamRows_Close (rows c) in
  match err with
  | Some e => ret (Some e)
  | None => range_Close (InsertsStreamWriter_Close fuel) (insertsStreamWriters c)
  end.

End Programs.

(** ** The acknowledgement reader (client.go 454-470)

    The goroutine is the only sender on both channels.  A send is taken
    to complete: the consumer receives from [ackCh], and [errCh] has room
    for the one error sent before it is closed. *)

Inductive event : Type :=
| AckSent (a : InsertsStreamAck)
| ErrSent (e : error)
| ErrClosed
| AckClosed.

Record reader_state := {
  st_ackCh : chan InsertsStreamAck;
  st_errCh : chan error;
  events : list event
}.

Definition chan_send {A} (c : chan A) (v : A) : outcome (chan A) :=
  if closed c then Panicked SendOnClosedChannel
  else Done {| capacity := capacity c; sent := sent c ++ [v]; closed := false |}.

Definition chan_close {A} (c : chan A) : outcome (chan A) :=
  if closed c then Panicked CloseOfClosedChannel
  else Done {| capacity := capacity c; sent := sent c; closed := true |}.

(** [ackCh <- ack] *)
Definition send_ack (a : InsertsStreamAck) : ST reader_state unit :=
  fun st =>
    match chan_send (st_ackCh st) a with
    | Done ch => ({| st_ackCh := ch; st_errCh := st_errCh st;
                     events := events st ++ [AckSent a] |}, Done tt)
    | Panicked p => (st, Panicked p)
    | Unfinished => (st, Unfinished)
    end.

(** [errCh <- err] *)
Definition send_err (e : error) : ST reader_state unit :=
  fun st =>
    match chan_send (st_errCh st) e with
    | Done ch => ({| st_ackCh := st_ackCh st; st_errCh := ch;
                     events := events st ++ [ErrSent e] |}, Done tt)
    | Panicked p => (st, Panicked p)
    | Unfinished => (st, Unfinished)
    end.

(** [close(errCh)] *)
Definition close_err : ST reader_state unit :=
  fun st =>
    match chan_close (st_errCh st) with
    | Done ch => ({| st_ackCh := st_ackCh st; st_errCh := ch;
                     events := events st ++ [ErrClosed] |}, Done tt)
    | Panicked p => (st, Panicked p)
    | Unfinished => (st, Unfinished)
    end.

(** [close(ackCh)] *)
Definition close_ack : ST reader_state unit :=
  fun st =>
    match chan_close (st_ackCh st) with
    | Done ch => ({| st_ackCh := ch; st_errCh := st_errCh st;
                     events := events st ++ [AckClosed] |}, Done tt)
    | Panicked p => (st, Panicked p)
    | Unfinished => (st, Unfinished)
    end.

Section AckReader.

Context (deps : Deps).

(** The body of [for sc.Scan()], over the lines the scanner yields. *)
Fixpoint scan_loop (lines : list string) : ST reader_state unit :=
  match lines with
  | [] => ret tt
  | b :: rest =>
      let ack := fst (Unmarshal_ack deps b) in
      let* _ :=
        match snd (Unmarshal_ack deps b) with
        | Some err => let* _ := send_err err in close_err
        | None => ret tt
        end in
      let* _ := send_ack ack in
      scan_loop rest
  end.

(** The goroutine: [lines] are the tokens of the scanner over the
    response body, [sc_err] is what [sc.Err()] reports when it stops. *)
Definition ack_reader (lines : list string) (sc_err : option error)
  : ST reader_state unit :=
  defer close_ack
    (let* _ := scan_loop lines in
     match sc_err with
     | Some err => let* _ := send_err err in close_err
     | None => ret tt
     end).

End AckReader.

(** The goroutine starts on the channels the stream was opened with. *)
Definition reader_start (w : InsertsStreamWriter) : reader_state :=
  {| st_ackCh := ackCh w; st_errCh := errCh w; events := [] |}.


(** ** Predicates on runs *)

(** The reads that empty a body: [k] reads give data, the next one
    reports the end of input. *)
Definition drained (env : Env) (log : list call) (src : handle) (k : nat) : Prop :=
  (forall j, j < k ->
     exists n, on_Read env (log ++ replicate j (CallRead src)) src = ReadData n)
  /\ on_Read env (log ++ replicate k (CallRead src)) src = ReadEOF.

(** The events of a run only grow. *)
Definition extends (st st' : reader_state) : Prop :=
  exists more, events st' = events st ++ more.

(** ** Row schema: what is known about it *)

Definition schema_known (cols : columns) : Prop :=
  count cols = Z.of_nat (length (names cols)).

Definition schema_unknown (cols : columns) : Prop :=
  count cols = (-1)%Z /\ names cols = [].

(** ** Concrete collaborators, for running the programs *)

Definition plain_makeRequest (base path method : string) (body : ReqBody)
  : result Request :=
  Ok {| req_method := method; req_url := String.append base path; req_body := body |}.

Definition zero_ack : InsertsStreamAck := {| Status := ""; Seq := 0%Z |}.

(** The double quote, to spell JSON text. *)
Definition dq : string :=
  String (Ascii.Ascii false true false false false true false false) EmptyString.

(** The line [{"status":"ok","seq":n}] for a digit string [n]. *)
Definition ack_line (n : string) : string :=
  String.append "{" (String.append dq (String.append "status" (String.append dq
  (String.append ":" (String.append dq (String.append "ok" (String.append dq
  (String.append "," (String.append dq (String.append "seq" (String.append dq
  (String.append ":" (String.append n "}"))))))))))))).

(** [encoding/json] on the lines used below; every other line is taken
    as not being JSON. *)
Definition table_Unmarshal_ack (line : string) : InsertsStreamAck * option error :=
  if String.eqb line (ack_line "0") then ({| Status := "ok"; Seq := 0%Z |}, None)
  else if String.eqb line (ack_line "1") then ({| Status := "ok"; Seq := 1%Z |}, None)
  else if String.eqb line (ack_line "7") then ({| Status := "ok"; Seq := 7%Z |}, None)
  else if String.eqb line "{}" then (zero_ack, None)
  else (zero_ack, Some (ErrMsg "invalid character")).

Definition plain_deps : Deps :=
  {| makeRequest := plain_makeRequest;
     parseSchemaKeys := fun schema => [schema];
     marshal := fun _ => None;
     Unmarshal_ack := table_Unmarshal_ack;
     queryPath := "/query";
     queryStreamPath := "/query-stream";
     closeQueryPath := "/close-query";
     insertsStreamPath := "/inserts-stream" |}.

Definition handle_eqb (a b : handle) : bool :=
  match a, b with
  | Body i, Body j => Nat.eqb i j
  | PipeReader i, PipeReader j => Nat.eqb i j
  | PipeWriter i, PipeWriter j => Nat.eqb i j
  | _, _ => false
  end.

(** Was [h.Close()] called in [log]? *)
Definition was_closed (h : handle) (log : list call) : bool :=
  existsb (fun c => match c with CallClose h' => handle_eqb h h' | _ => false end) log.

Definition sample_header : QueryResultHeader :=
  {| hdr_QueryID := "q-1"; ColumnNames := ["id"; "name"]; ColumnTypes := ["BIGINT"; "STRING"] |}.

(** A service that answers every request, with body [doc], and objects
    that can be closed and read any number of times. *)
Definition lenient_env (doc : Json.document) : Env :=
  {| on_Pipe := fun _ => 0;
     on_Do := fun _ _ => Ok {| resp_Body := Body 0 |};
     on_ReadAll := fun _ _ => doc;
     on_DecodeHeader := fun _ _ => Ok sample_header;
     on_Read := fun _ _ => ReadEOF;
     on_Write := fun _ _ _ => None;
     on_Close := fun _ _ => None |}.

(** As [lenient_env], with bodies that behave as those of [net/http]:
    reading a body after it was closed is an error. *)
Definition strict_env : Env :=
  {| on_Pipe := fun _ => 0;
     on_Do := fun _ _ => Ok {| resp_Body := Body 0 |};
     on_ReadAll := fun _ _ => None;
     on_DecodeHeader := fun _ _ => Ok sample_header;
     on_Read := fun log h =>
       if was_closed h log then ReadErr (ErrMsg "http: read on closed response body")
       else ReadEOF;
     on_Write := fun _ _ _ => None;
     on_Close := fun _ _ => None |}.

(** A transport that is down: every request fails. *)
Definition down_env : Env :=
  {| on_Pipe := fun _ => 0;
     on_Do := fun _ _ => Err (ErrMsg "connection refused");
     on_ReadAll := fun _ _ => None;
     on_DecodeHeader := fun _ _ => Err (ErrMsg "EOF");
     on_Read := fun _ _ => ReadEOF;
     on_Write := fun _ _ _ => None;
     on_Close := fun _ _ => None |}.

Definition empty_client : Client :=
  {| baseURL := "http://ksql:8088"; rows := []; insertsStreamWriters := [] |}.

Definition select_all : QueryPayload :=
  {| qp_KSQL := "SELECT * FROM t;"; qp_StreamsProperties := [] |}.


Definition sample_closer : InsertsStreamCloser :=
  {| closer_req := PipeReader 0; closer_resp := Body 0 |}.

Definition sample_reader (id : string) (body : nat) : queryStreamReadCloser :=
  {| queryID := id; qs_body := Body body; qs_client_baseURL := "http://ksql:8088" |}.

Definition sample_rows (id : string) (body : nat) : QueryStreamRows :=
  {| rows_body := sample_reader id body;
     rows_dec := Body body;
     rows_columns := {| count := 2%Z; names := ["id"; "name"] |} |}.

(** The stream handle a fresh [InsertsStream] returns. *)
Definition fresh_writer : InsertsStreamWriter :=
  {| enc := PipeWriter 0;
     ackMap := ∅;
     curr := 0%Z;
     ackCh := make_chan InsertsStreamAck 0;
     errCh := make_chan error 1;
     closer := sample_closer |}.

Definition close_query_request (id : string) : Request :=
  {| req_method := "POST";
     req_url := "http://ksql:8088/close-query";
     req_body := BufBody (EncCloseQuery {| QueryID := id |}) |}.

(** A session with two row readers and one insertion stream. *)
Definition busy_client : Client :=
  {| baseURL := "http://ksql:8088";
     rows := [Some (sample_rows "q-1" 1); Some (sample_rows "q-2" 2)];
     insertsStreamWriters := [Some fresh_writer] |}.

(** ** Measures of a reader run *)

(** Does line [b] fail to decode? *)
Definition decode_fails (deps : Deps) (b : string) : bool :=
  match snd (Unmarshal_ack deps b) with
  | Some _ => true
  | None => false
  end.

(** The lines that fail to decode. *)
Fixpoint count_failures (deps : Deps) (lines : list string) : nat :=
  match lines with
  | [] => 0
  | b :: rest =>
      (if decode_fails deps b then 1 else 0) + count_failures deps rest
  end.

(** The error of the first line that fails to decode. *)
Fixpoint first_decode_error (deps : Deps) (lines : list string) : option error :=
  match lines with
  | [] => None
  | b :: rest =>
      match snd (Unmarshal_ack deps b) with
      | Some e => Some e
      | None => first_decode_error deps rest
      end
  end.

(** All failures of a run: the lines that do not decode, and the
    scanner's own failure. *)
Definition run_failures (deps : Deps) (lines : list string) (sc_err : option error)
  : nat :=
  count_failures deps lines + match sc_err with Some _ => 1 | None => 0 end.

(** The first failure of a run. *)
Definition first_failure (deps : Deps) (lines : list string) (sc_err : option error)
  : option error :=
  match first_decode_error deps lines with
  | Some e => Some e
  | None => sc_err
  end.

(** The state after [ackCh <- a] on an open channel. *)
Definition with_ack (a : InsertsStreamAck) (st : reader_state) : reader_state :=
  {| st_ackCh := {| capacity := capacity (st_ackCh st);
                    sent := sent (st_ackCh st) ++ [a];
                    closed := false |};
     st_errCh := st_errCh st;
     events := events st ++ [AckSent a] |}.

(** The state after [errCh <- e; close(errCh)] on an open channel. *)
Definition with_err (e : error) (st : reader_state) : reader_state :=
  {| st_ackCh := st_ackCh st;
     st_errCh := {| capacity := capacity (st_errCh st);
                    sent := sent (st_errCh st) ++ [e];
                    closed := true |};
     events := (events st ++ [ErrSent e]) ++ [ErrClosed] |}.

(** What an error channel holds once it is closed, as a count. *)
Definition errors_pending (st : reader_state) : nat :=
  if closed (st_errCh st) then 1 else 0.

(** The state after [close(ackCh)] on an open channel. *)
Definition with_ack_closed (st : reader_state) : reader_state :=
  {| st_ackCh := {| capacity := capacity (st_ackCh st);
                    sent := sent (st_ackCh st);
                    closed := true |};
     st_errCh := st_errCh st;
     events := events st ++ [AckClosed] |}.

(** ** QueryError.Error (client.go 53-58) *)

(** [q.Error()] for [q = &QueryError{result}]: the assertion
    [msg.(string)] panics when the message is no string. *)
Definition QueryError_Error (result : Json.object) : outcome string :=
  match Json.lookup "message" result with
  | Some (JString msg) => Done msg
  | Some _ => Panicked InterfaceConversion
  | None => Done "an unknown error occurred"
  end.

(** A membership slice without its nil entries. *)
Fixpoint without_nil {A} (members : list (option A)) : list (option A) :=
  match members with
  | [] => []
  | None :: rest => without_nil rest
  | Some m :: rest => Some m :: without_nil rest
  end.

(** A service that never stops sending on its response bodies. *)
Definition endless_env : Env :=
  {| on_Pipe := fun _ => 0;
     on_Do := fun _ _ => Ok {| resp_Body := Body 0 |};
     on_ReadAll := fun _ _ => None;
     on_DecodeHeader := fun _ _ => Ok sample_header;
     on_Read := fun _ _ => ReadData 512;
     on_Write := fun _ _ _ => None;
     on_Close := fun _ _ => None |}.

(** ** The administrative requests (client.go 279-306, 490-557)

    [Exec], [TerminateCluster], [Info] and [Healthcheck] send bodies of
    their own, so their requests and calls are kept apart from those of
    the streaming paths. *)

Record ExecPayload := {
  ep_KSQL : string;
  ep_StreamsProperties : Json.object;
  CommandSequenceNumber : Z
}.

Record TerminateClusterPayload := { DeleteTopicList : list string }.

Inductive AdminBody : Type :=
| ExecBody (p : ExecPayload)
| TerminateBody (p : TerminateClusterPayload)
| NoBody.

Record AdminRequest := {
  areq_method : string;
  areq_url : string;
  areq_body : AdminBody
}.

Inductive admin_call : Type :=
| AdminDo (req : AdminRequest)
| AdminReadAll (h : handle)
| AdminDecode (h : handle)
| AdminClose (h : handle).

Record AdminEnv := {
  admin_Do : list admin_call -> AdminRequest -> result Response;
  (* [ioutil.ReadAll]: the bytes read, and its error *)
  admin_ReadAll : list admin_call -> handle -> Json.document * option error;
  (* the next JSON value a [json.Decoder] finds on the body *)
  admin_Decode : list admin_call -> handle -> result Json.value;
  admin_Close : list admin_call -> handle -> option error
}.

Record HealthcheckResult := {
  IsHealthy : bool;
  Metastore_IsHealthy : bool;
  Kafka_IsHealthy : bool
}.

(** Code and constants these functions use and [client.go] does not
    define; [ExecResult] is opaque to [Exec]. *)
Record AdminDeps (ExecResult : Type) := {
  admin_makeRequest : string -> string -> string -> AdminBody -> result AdminRequest;
  admin_marshal : AdminBody -> option error;
  (* [json.Unmarshal(by, &results)] on a nil slice: the slice afterwards,
     and the error *)
  Unmarshal_results : Json.document -> list ExecResult * option error;
  (* [json.Unmarshal(by, &result)] on a zero struct *)
  Unmarshal_result : Json.document -> ExecResult * option error;
  (* decoding one JSON value into a zero [HealthcheckResult] *)
  Decode_Healthcheck : Json.value -> HealthcheckResult * option error;
  execPath : string;
  infoPath : string;
  terminateClusterPath : string
}.
Arguments admin_makeRequest {ExecResult} a.
Arguments admin_marshal {ExecResult} a.
Arguments Unmarshal_results {ExecResult} a.
Arguments Unmarshal_result {ExecResult} a.
Arguments Decode_Healthcheck {ExecResult} a.
Arguments execPath {ExecResult} a.
Arguments infoPath {ExecResult} a.
Arguments terminateClusterPath {ExecResult} a.

Definition http_MethodGet : string := "GET".

Definition AM (A : Type) : Type := ST (list admin_call) A.

Definition admin_perform {A} (c : admin_call) (reply : list admin_call -> A) : AM A :=
  fun log => (log ++ [c], Done (reply log)).

(** Decoding one JSON value into a [map[string]interface{}] that holds
    [into]: the keys of an object are added. *)
Definition Decode_map (v : result Json.value) (into : Json.object)
  : Json.object * option error :=
  match v with
  | Err e => (into, Some e)
  | Ok JNull => (into, None)
  | Ok (JObject fields) => (into ++ fields, None)
  | Ok _ =>
      (into, Some (ErrMsg "json: cannot unmarshal into Go value of type ksql.InfoResult"))
  end.

Definition zero_HealthcheckResult : HealthcheckResult :=
  {| IsHealthy := false; Metastore_IsHealthy := false; Kafka_IsHealthy := false |}.

Section Admin.

Context {ExecResult : Type} (adeps : AdminDeps ExecResult) (aenv : AdminEnv).

Definition Admin_Do (req : AdminRequest) : AM (result Response) :=
  admin_perform (AdminDo req) (fun log => admin_Do aenv log req).

Definition Admin_ReadAll (h : handle) : AM (Json.document * option error) :=
  admin_perform (AdminReadAll h) (fun log => admin_ReadAll aenv log h).

Definition Admin_Decode (h : handle) : AM (result Json.value) :=
  admin_perform (AdminDecode h) (fun log => admin_Decode aenv log h).

Definition Admin_Close (h : handle) : AM (option error) :=
  admin_perform (AdminClose h) (fun log => admin_Close aenv log h).

(** *** Exec (client.go 279-306).  The text of the body that the last
    error quotes is left out of the error value. *)
Definition Exec (c : Client) (payload : ExecPayload) : AM (result (list ExecResult)) :=
  match admin_marshal adeps (ExecBody payload) with
  | Some e => ret (Err e)
  | None =>
      match admin_makeRequest adeps (baseURL c) (execPath adeps) http_MethodPost
              (ExecBody payload) with
      | Err e => ret (Err e)
      | Ok req =>
          let* r := Admin_Do req in
          match r with
          | Err e => ret (Err (ErrWrap "unable to make Exec request" e))
          | Ok resp =>
              let* rd := Admin_ReadAll (resp_Body resp) in
              match snd rd with
              | Some e => ret (Err (ErrWrap "unable to read response body" e))
              | None =>
                  let results := fst (Unmarshal_results adeps (fst rd)) in
                  match snd (Unmarshal_results adeps (fst rd)) with
                  | None => ret (Ok results)
                  | Some _ =>
                      let result_ := fst (Unmarshal_result adeps (fst rd)) in
                      match snd (Unmarshal_result adeps (fst rd)) with
                      | Some e =>
                          ret (Err (ErrWrap "unable to decode JSON response" e))
                      | None => ret (Ok (results ++ [result_]))
                      end
                  end
              end
          end
      end
  end.

(** *** TerminateCluster (client.go 490-505) *)
Definition TerminateCluster (c : Client) (payload : TerminateClusterPayload)
  : AM (option error) :=
  match admin_marshal adeps (TerminateBody payload) with
  | Some e => ret (Some e)
  | None =>
      match admin_makeRequest adeps (baseURL c) (terminateClusterPath adeps)
              http_MethodPost (TerminateBody payload) with
      | Err e => ret (Some e)
      | Ok req =>
          let* r := Admin_Do req in
          match r with
          | Err e => ret (Some e)
          | Ok resp => defer (Admin_Close (resp_Body resp)) (ret None)
          end
      end
  end.

(** *** Info (client.go 511-526): the result and the error are both
    returned. *)
Definition Info (c : Client) : AM (Json.object * option error) :=
  let result_ : Json.object := [] in
  match admin_makeRequest adeps (baseURL c) (infoPath adeps) http_MethodGet NoBody with
  | Err e => ret (result_, Some e)
  | Ok req =>
      let* r := Admin_Do req in
      match r with
      | Err e => ret (result_, Some e)
      | Ok resp =>
          defer (Admin_Close (resp_Body resp))
            (let* v := Admin_Decode (resp_Body resp) in
             ret (Decode_map v result_))
      end
  end.

(** *** Healthcheck (client.go 542-557) *)
Definition Healthcheck (c : Client) : AM (HealthcheckResult * option error) :=
  let result_ := zero_HealthcheckResult in
  match admin_makeRequest adeps (baseURL c) (infoPath adeps) http_MethodGet NoBody with
  | Err e => ret (result_, Some e)
  | Ok req =>
      let* r := Admin_Do req in
      match r with
      | Err e => ret (result_, Some e)
      | Ok resp =>
          defer (Admin_Close (resp_Body resp))
            (let* v := Admin_Decode (resp_Body resp) in
             match v with
             | Err e => ret (result_, Some e)
             | Ok v' => ret (Decode_Healthcheck adeps v')
             end)
      end
  end.

End Admin.

(** Collaborators for running the administrative requests; results of
    [Exec] are kept as the JSON values they were decoded from. *)
Definition plain_admin_deps : AdminDeps Json.value :=
  {| admin_makeRequest := fun base path method body =>
       Ok {| areq_method := method; areq_url := String.append base path;
             areq_body := body |};
     admin_marshal := fun _ => None;
     Unmarshal_results := fun by_ =>
       match by_ with
       | Some (JArray elems) => (elems, None)
       | Some JNull => ([], None)
       | _ => ([], Some (ErrMsg "json: cannot unmarshal into Go value of type []ksql.ExecResult"))
       end;
     Unmarshal_result := fun by_ =>
       match by_ with
       | Some (JObject fields) => (JObject fields, None)
       | Some JNull => (JNull, None)
       | _ => (JNull, Some (ErrMsg "json: cannot unmarshal into Go value of type ksql.ExecResult"))
       end;
     Decode_Healthcheck := fun v =>
       match v with
       | JObject _ => ({| IsHealthy := true; Metastore_IsHealthy := true;
                          Kafka_IsHealthy := true |}, None)
       | _ => (zero_HealthcheckResult,
               Some (ErrMsg "json: cannot unmarshal into Go value of type ksql.HealthcheckResult"))
       end;
     execPath := "/ksql";
     infoPath := "/info";
     terminateClusterPath := "/ksql/terminate" |}.

(** A service that answers every administrative request with [doc]. *)
Definition admin_env (doc : Json.value) : AdminEnv :=
  {| admin_Do := fun _ _ => Ok {| resp_Body := Body 0 |};
     admin_ReadAll := fun _ _ => (Some doc, None);
     admin_Decode := fun _ _ => Ok doc;
     admin_Close := fun _ _ => None |}.

(** A service that answers, with a body that cannot be read and fails
    to close. *)
Definition broken_body_env : AdminEnv :=
  {| admin_Do := fun _ _ => Ok {| resp_Body := Body 3 |};
     admin_ReadAll := fun _ _ => (None, Some (ErrMsg "unexpected EOF"));
     admin_Decode := fun _ _ => Err (ErrMsg "unexpected EOF");
     admin_Close := fun _ _ => Some (ErrMsg "close failed") |}.

(** * Properties *)

(** ** Row schema (Query and QueryStream) *)

Lemma Query_columns_inv deps first cols :
  Query_columns deps first = Done cols ->
  schema_unknown cols \/ schema_known cols.
Proof.
  unfold Query_columns, schema_unknown, schema_known.
  destruct (Json.lookup "header" first) as [[| | | |? |headerMap]|];
    try (intros [= <-]; left; split; reflexivity).
  destruct (Json.lookup "schema" headerMap) as [[| | |schema| |]|];
    try discriminate;
    intros [= <-]; [right | left; split]; reflexivity.
Qed.

Lemma Query_decode_inv deps by_ qr :
  Query_decode deps by_ = Done (Ok qr) ->
  schema_unknown (qr_columns qr) \/ schema_known (qr_columns qr).
Proof.
  unfold Query_decode.
  destruct (Unmarshal_map by_); [discriminate |].
  destruct (Unmarshal_maps by_) as [[|first rest]|]; try discriminate.
  destruct (Query_columns deps first) as [cols| |] eqn:Hc; try discriminate.
  intros [= <-]. simpl. eapply Query_columns_inv, Hc.
Qed.

Lemma Query_returns deps env c payload log log' r :
  Query deps env c payload log = (log', Done (Ok r)) ->
  exists by_, Query_decode deps by_ = Done (Ok r).
Proof.
  unfold Query.
  destruct (marshal deps _); [discriminate |].
  destruct (makeRequest deps _ _ _ _) as [req|]; [| discriminate].
  unfold bind, http_Do, perform at 1.
  destruct (on_Do env log req) as [resp|]; [| discriminate].
  unfold defer, bind, ioutil_ReadAll, perform, Close.
  set (by_ := on_ReadAll env _ _).
  destruct (Query_decode deps by_) as [a| |] eqn:Hd; try discriminate.
  intros [= _ ->]. exists by_. exact Hd.
Qed.

(** C9: a row schema the client produces has a column count equal to the
    number of its column names once the schema is known (always on the
    streaming path), and on the non-streaming path the count is -1 with no
    names as long as no header schema was parsed. *)
Theorem row_schema_count_matches_names deps env c log :
  (forall payload log' qr,
      Query deps env c payload log = (log', Done (Ok qr)) ->
      schema_unknown (qr_columns qr) \/ schema_known (qr_columns qr))
  /\ (forall payload log' c' r,
      QueryStream deps env c payload log = (log', Done (c', Ok r)) ->
      schema_known (rows_columns r))
  /\ (forall first,
      Json.lookup "header" first = None ->
      Query_columns deps first = Done {| count := (-1)%Z; names := [] |}).
Proof.
  split; [| split].
  - intros payload log' qr H.
    destruct (Query_returns _ _ _ _ _ _ _ H) as [by_ Hd].
    eapply Query_decode_inv, Hd.
  - intros payload log' c' r. unfold QueryStream.
    destruct (marshal deps _); [discriminate |].
    destruct (makeRequest deps _ _ _ _) as [req|]; [| discriminate].
    unfold bind, http_Do, perform at 1.
    destruct (on_Do env log req) as [resp|]; [| discriminate].
    unfold Decode_header, perform.
    destruct (on_DecodeHeader env _ _) as [header|]; [| discriminate].
    intros [= _ _ <-]. reflexivity.
  - intros first H. unfold Query_columns. rewrite H. reflexivity.
Qed.

(** ** Query on an empty array *)

Lemma Query_decode_empty_array deps :
  Query_decode deps (Some (JArray [])) = Panicked (IndexOutOfRange 0 0).
Proof. reflexivity. Qed.

Lemma Query_decode_array_safe deps elems r :
  Query_decode deps (Some (JArray elems)) = Done r -> elems <> [].
Proof. intros H ->. discriminate H. Qed.

(** C10: when the service answers a query with the empty JSON array,
    [Query] indexes [resultsRaw[0]] out of range and panics instead of
    returning an error (the deferred close of the body still runs); an
    array-shaped answer on which the decoding returns is never empty. *)
Theorem Query_empty_array_index_out_of_range deps env c payload log req resp :
  marshal deps (EncQuery payload) = None ->
  makeRequest deps (baseURL c) (queryPath deps) http_MethodPost
    (BufBody (EncQuery payload)) = Ok req ->
  on_Do env log req = Ok resp ->
  on_ReadAll env (log ++ [CallDo req]) (resp_Body resp) = Some (JArray []) ->
  Query deps env c payload log
  = (log ++ [CallDo req; CallReadAll (resp_Body resp); CallClose (resp_Body resp)],
     Panicked (IndexOutOfRange 0 0))
  /\ forall elems r, Query_decode deps (Some (JArray elems)) = Done r -> elems <> [].
Proof.
  intros Hm Hr Hd Hb. split; [| apply Query_decode_array_safe].
  unfold Query. rewrite Hm, Hr.
  unfold bind, http_Do, perform at 1. rewrite Hd.
  unfold defer, bind, ioutil_ReadAll, Close, perform. rewrite Hb.
  rewrite Query_decode_empty_array.
  rewrite <- !app_assoc. reflexivity.
Qed.

Lemma Query_empty_array_index_out_of_range_witness :
  Query plain_deps (lenient_env (Some (JArray []))) empty_client select_all []
  = ([CallDo {| req_method := "POST"; req_url := "http://ksql:8088/query";
                req_body := BufBody (EncQuery select_all) |};
      CallReadAll (Body 0); CallClose (Body 0)],
     Panicked (IndexOutOfRange 0 0)).
Proof.
  exact (proj1 (Query_empty_array_index_out_of_range
                  plain_deps (lenient_env (Some (JArray []))) empty_client select_all []
                  _ _ eq_refl eq_refl eq_refl eq_refl)).
Defined.

(** A non-empty answer with a header: the schema becomes known. *)
Example Query_with_header :
  snd (Query plain_deps
         (lenient_env (Some (JArray
            [JObject [("header", JObject [("schema", JString "`ID` BIGINT")])];
             JObject [("row", JObject [("columns", JArray [JNumber "1"])])]])))
         empty_client select_all [])
  = Done (Ok {| res := [[("row", JObject [("columns", JArray [JNumber "1"])])]];
                qr_columns := {| count := 1%Z; names := ["`ID` BIGINT"] |} |}).
Proof. reflexivity. Qed.

(** A non-empty answer without a header: the count stays at the sentinel. *)
Example Query_without_header :
  snd (Query plain_deps (lenient_env (Some (JArray [JObject []]))) empty_client select_all [])
  = Done (Ok {| res := []; qr_columns := {| count := (-1)%Z; names := [] |} |}).
Proof. reflexivity. Qed.

(** An object-shaped answer is a statement error. *)
Example Query_statement_error :
  snd (Query plain_deps
         (lenient_env (Some (JObject [("message", JString "bad statement")])))
         empty_client select_all [])
  = Done (Err (QueryError [("message", JString "bad statement")])).
Proof. reflexivity. Qed.

(** ** Closing an insertion stream: the order of the calls *)

Lemma log_snoc_replicate (log : list call) (c : call) (k : nat) :
  (log ++ [c]) ++ replicate k c = log ++ replicate (S k) c.
Proof. rewrite <- app_assoc. reflexivity. Qed.

Lemma io_Copy_Discard_spec env src fuel : forall log,
  exists k,
    k <= fuel
    /\ fst (io_Copy_Discard env fuel src log) = log ++ replicate k (CallRead src)
    /\ match snd (io_Copy_Discard env fuel src log) with
       | Done None => exists k', k = S k' /\ drained env log src k'
       | Done (Some e) =>
           exists k', k = S k'
             /\ on_Read env (log ++ replicate k' (CallRead src)) src = ReadErr e
       | Unfinished => k = fuel
       | Panicked _ => False
       end.
Proof.
  induction fuel as [|fuel IH]; intros log.
  - exists 0. simpl. rewrite app_nil_r. auto.
  - simpl. unfold bind, Read, perform.
    destruct (on_Read env log src) as [n| |e] eqn:Hr.
    + destruct (IH (log ++ [CallRead src])) as (k & Hk & Hlog & Hout).
      exists (S k). split; [lia |]. split.
      * rewrite Hlog. apply log_snoc_replicate.
      * destruct (snd (io_Copy_Discard env fuel src (log ++ [CallRead src])))
          as [[e|]| |]; try easy.
        -- destruct Hout as (k' & -> & He). exists (S k'). split; [easy |].
           rewrite <- log_snoc_replicate. exact He.
        -- destruct Hout as (k' & -> & Hd & He). exists (S k'). split; [easy |].
           split.
           ++ intros [|j] Hj.
              ** exists n. simpl. rewrite app_nil_r. exact Hr.
              ** rewrite <- log_snoc_replicate. apply Hd. lia.
           ++ rewrite <- log_snoc_replicate. exact He.
        -- lia.
    + exists 1. simpl. split; [lia |]. split; [easy |].
      exists 0. split; [easy |]. split; [intros j Hj; lia |].
      simpl. rewrite app_nil_r. exact Hr.
    + exists 1. simpl. split; [lia |]. split; [easy |].
      exists 0. split; [easy |]. simpl. rewrite app_nil_r. exact Hr.
Qed.

(** With enough fuel a body that ends is read to its end. *)
Lemma io_Copy_Discard_drains env src k : forall fuel log,
  drained env log src k -> k < fuel ->
  io_Copy_Discard env fuel src log
  = (log ++ replicate (S k) (CallRead src), Done None).
Proof.
  induction k as [|k IH]; intros [|fuel] log [Hd He] Hf; try lia.
  - simpl in *. rewrite app_nil_r in He.
    unfold bind, Read, perform. rewrite He. reflexivity.
  - destruct (Hd 0) as [n Hn]; [lia |].
    simpl in Hn. rewrite app_nil_r in Hn.
    change (io_Copy_Discard env (S fuel) src log)
      with (bind (Read env src)
              (fun r => match r with
                        | ReadData _ => io_Copy_Discard env fuel src
                        | ReadEOF => ret None
                        | ReadErr e => ret (Some e)
                        end) log).
    unfold bind, Read, perform. rewrite Hn.
    rewrite (IH fuel (log ++ [CallRead src])); [| | lia].
    + rewrite log_snoc_replicate. reflexivity.
    + split.
      * intros j Hj. rewrite log_snoc_replicate. apply Hd. lia.
      * rewrite log_snoc_replicate. exact He.
Qed.

(** [InsertsStreamCloser.Close] step by step. *)
Lemma InsertsStreamCloser_Close_eq env fuel i log :
  InsertsStreamCloser_Close env fuel i log
  = match on_Close env log (closer_req i) with
    | Some e => (log ++ [CallClose (closer_req i)], Done (Some e))
    | None =>
        match io_Copy_Discard env fuel (closer_resp i)
                (log ++ [CallClose (closer_req i)]) with
        | (log1, Done None) =>
            (log1 ++ [CallClose (closer_resp i)],
             Done (on_Close env log1 (closer_resp i)))
        | (log1, Done (Some e)) => (log1, Done (Some e))
        | (log1, Panicked p) => (log1, Panicked p)
        | (log1, Unfinished) => (log1, Unfinished)
        end
    end.
Proof.
  unfold InsertsStreamCloser_Close, bind, Close, perform.
  destruct (on_Close env log (closer_req i)); [reflexivity |].
  destruct (io_Copy_Discard env fuel (closer_resp i) _) as [log1 [[e|]| |]];
    try reflexivity.
  destruct (on_Close env log1 (closer_resp i)); reflexivity.
Qed.


(** With enough fuel [Close] returns: on a body that ends after [k]
    chunks it makes all three steps and returns what closing the body
    returned. *)
Lemma InsertsStreamCloser_Close_returns env fuel i log k :
  on_Close env log (closer_req i) = None ->
  drained env (log ++ [CallClose (closer_req i)]) (closer_resp i) k ->
  k < fuel ->
  InsertsStreamCloser_Close env fuel i log
  = (log ++ CallClose (closer_req i) :: replicate (S k) (CallRead (closer_resp i))
         ++ [CallClose (closer_resp i)],
     Done (on_Close env
             (log ++ CallClose (closer_req i)
                  :: replicate (S k) (CallRead (closer_resp i)))
             (closer_resp i))).
Proof.
  intros Hreq Hd Hk.
  rewrite InsertsStreamCloser_Close_eq, Hreq.
  rewrite (io_Copy_Discard_drains env (closer_resp i) k fuel _ Hd Hk).
  rewrite <- !app_assoc. reflexivity.
Qed.

(** A body of two chunks, closed in a service that answers everything. *)
Example InsertsStreamCloser_Close_run :
  InsertsStreamCloser_Close
    {| on_Pipe := fun _ => 0;
       on_Do := fun _ _ => Ok {| resp_Body := Body 0 |};
       on_ReadAll := fun _ _ => None;
       on_DecodeHeader := fun _ _ => Ok sample_header;
       on_Read := fun log _ => if Nat.ltb (length log) 3 then ReadData 16 else ReadEOF;
       on_Write := fun _ _ _ => None;
       on_Close := fun _ _ => None |}
    10 {| closer_req := PipeReader 0; closer_resp := Body 0 |} []
  = ([CallClose (PipeReader 0); CallRead (Body 0); CallRead (Body 0);
      CallRead (Body 0); CallClose (Body 0)], Done None).
Proof. reflexivity. Qed.

(** ** Closing a row reader *)

Lemma CloseQuery_eq deps env base payload log :
  CloseQuery deps env base payload log
  = match marshal deps (EncCloseQuery payload) with
    | Some e => (log, Done (Some e))
    | None =>
        match makeRequest deps base (closeQueryPath deps) http_MethodPost
                (BufBody (EncCloseQuery payload)) with
        | Err e => (log, Done (Some e))
        | Ok req =>
            (log ++ [CallDo req],
             Done (match on_Do env log req with Err e => Some e | Ok _ => None end))
        end
    end.
Proof.
  unfold CloseQuery, bind, http_Do, perform.
  destruct (marshal deps _); [reflexivity |].
  destruct (makeRequest deps _ _ _ _) as [req|]; [| reflexivity].
  destruct (on_Do env log req); reflexivity.
Qed.

Lemma queryStreamReadCloser_Close_eq deps env q log :
  queryStreamReadCloser_Close deps env q log
  = match CloseQuery deps env (qs_client_baseURL q) {| QueryID := queryID q |} log with
    | (log1, Done None) =>
        (log1 ++ [CallClose (qs_body q)], Done (on_Close env log1 (qs_body q)))
    | (log1, Done (Some e)) => (log1, Done (Some e))
    | (log1, Panicked p) => (log1, Panicked p)
    | (log1, Unfinished) => (log1, Unfinished)
    end.
Proof.
  unfold queryStreamReadCloser_Close, bind, Close, perform.
  destruct (CloseQuery deps env _ _ log) as [log1 [[e|]| |]]; reflexivity.
Qed.

(** C2 (what the code does): when the terminate-query request fails,
    [Close] of the row reader's body returns that failure at once; the
    calls it made are those of the request, and [Close] of the response
    body is not among them. *)
Theorem queryStreamReadCloser_Close_leaves_body_open deps env q log log1 e :
  CloseQuery deps env (qs_client_baseURL q) {| QueryID := queryID q |} log
  = (log1, Done (Some e)) ->
  queryStreamReadCloser_Close deps env q log = (log1, Done (Some e))
  /\ exists calls, log1 = log ++ calls /\ forall h, ~ In (CallClose h) calls.
Proof.
  intros H. split.
  - rewrite queryStreamReadCloser_Close_eq, H. reflexivity.
  - rewrite CloseQuery_eq in H.
    destruct (marshal deps _).
    + injection H as <- _. exists []. rewrite app_nil_r. split; [reflexivity |].
      intros h [].
    + destruct (makeRequest deps _ _ _ _) as [req|].
      * injection H as <- _. exists [CallDo req]. split; [reflexivity |].
        intros h [Hc|[]]. discriminate Hc.
      * injection H as <- _. exists []. rewrite app_nil_r. split; [reflexivity |].
        intros h [].
Qed.

Lemma queryStreamReadCloser_Close_leaves_body_open_witness :
  queryStreamReadCloser_Close plain_deps down_env (sample_reader "q-1" 0) []
  = ([CallDo (close_query_request "q-1")], Done (Some (ErrMsg "connection refused")))
  /\ exists calls, [CallDo (close_query_request "q-1")] = [] ++ calls
                   /\ forall h, ~ In (CallClose h) calls.
Proof.
  exact (queryStreamReadCloser_Close_leaves_body_open
           plain_deps down_env (sample_reader "q-1" 0) [] _ _ eq_refl).
Defined.

(** ** Closing a stream twice *)










(** The row reader in the same environment: the terminate request is
    sent a second time. *)
Example queryStreamReadCloser_Close_twice :
  queryStreamReadCloser_Close plain_deps (lenient_env None) (sample_reader "q-1" 0)
    [CallDo (close_query_request "q-1"); CallClose (Body 0)]
  = ([CallDo (close_query_request "q-1"); CallClose (Body 0);
      CallDo (close_query_request "q-1"); CallClose (Body 0)], Done None).
Proof. reflexivity. Qed.

(** ** Closing a session *)

Lemma range_Close_app {A} (close_member : A -> M (option error)) pre rest log :
  range_Close close_member (pre ++ rest) log
  = match range_Close close_member pre log with
    | (log1, Done None) => range_Close close_member rest log1
    | other => other
    end.
Proof.
  revert log. induction pre as [|[m|] pre IH]; intros log; simpl.
  - reflexivity.
  - unfold bind. destruct (close_member m log) as [log1 [[e|]| |]]; try reflexivity.
    apply IH.
  - apply IH.
Qed.

Lemma range_Close_stops {A} (close_member : A -> M (option error)) m rest log log1 e :
  close_member m log = (log1, Done (Some e)) ->
  range_Close close_member (Some m :: rest) log = (log1, Done (Some e)).
Proof. intros H. simpl. unfold bind. rewrite H. reflexivity. Qed.

(** C3 (what the code does): session [Close] returns at the first member
    whose [Close] fails, with that error; the calls made are those of the
    members before it and of the failing member, so the row readers after
    it and all insertion streams are not attempted. *)
Theorem Client_Close_stops_at_first_error deps env fuel c pre r rest log log0 log1 e :
  rows c = pre ++ Some r :: rest ->
  range_Close (QueryStreamRows_Close deps env) pre log = (log0, Done None) ->
  QueryStreamRows_Close deps env r log0 = (log1, Done (Some e)) ->
  Client_Close deps env fuel c log = (log1, Done (Some e)).
Proof.
  intros Hrows Hpre Hfail.
  unfold Client_Close, bind.
  rewrite Hrows, range_Close_app, Hpre.
  rewrite (range_Close_stops _ _ _ _ _ _ Hfail). reflexivity.
Qed.

(** The same in the second loop: a failing insertion stream ends the
    walk, and the streams after it are not attempted. *)
Lemma Client_Close_stops_at_first_writer_error
    deps env fuel c pre w rest log log0 log1 log2 e :
  range_Close (QueryStreamRows_Close deps env) (rows c) log = (log0, Done None) ->
  insertsStreamWriters c = pre ++ Some w :: rest ->
  range_Close (InsertsStreamWriter_Close env fuel) pre log0 = (log1, Done None) ->
  InsertsStreamWriter_Close env fuel w log1 = (log2, Done (Some e)) ->
  Client_Close deps env fuel c log = (log2, Done (Some e)).
Proof.
  intros Hrows Hw Hpre Hfail.
  unfold Client_Close, bind.
  rewrite Hrows, Hw, range_Close_app, Hpre.
  apply range_Close_stops, Hfail.
Qed.

Lemma Client_Close_stops_at_first_error_witness :
  Client_Close plain_deps down_env 1 busy_client []
  = ([CallDo (close_query_request "q-1")], Done (Some (ErrMsg "connection refused"))).
Proof.
  exact (Client_Close_stops_at_first_error plain_deps down_env 1 busy_client
           [] (sample_rows "q-1" 1) [Some (sample_rows "q-2" 2)] [] [] _ _
           eq_refl eq_refl eq_refl).
Defined.

(** When no member fails every member is closed, row readers first. *)
Example Client_Close_all :
  Client_Close plain_deps (lenient_env None) 1 busy_client []
  = ([CallDo (close_query_request "q-1"); CallClose (Body 1);
      CallDo (close_query_request "q-2"); CallClose (Body 2);
      CallClose (PipeReader 0); CallRead (Body 0); CallClose (Body 0)],
     Done None).
Proof. reflexivity. Qed.

(** ** Opening an insertion stream *)

Lemma InsertsStream_eq deps env c payload log :
  InsertsStream deps env c payload log
  = let id := on_Pipe env log in
    let log1 := log ++ [CallPipe] in
    match makeRequest deps (baseURL c) (insertsStreamPath deps) http_MethodPost
            (PipeBody (PipeReader id)) with
    | Err e => (log1, Done (c, Err e))
    | Ok req =>
        match on_Do env log1 req with
        | Err e => (log1 ++ [CallDo req], Done (c, Err e))
        | Ok res_ =>
            match marshal deps (EncTarget payload) with
            | Some e => (log1 ++ [CallDo req], Done (c, Err e))
            | None =>
                let log2 := (log1 ++ [CallDo req])
                              ++ [CallWrite (PipeWriter id) (EncTarget payload)] in
                match on_Write env (log1 ++ [CallDo req]) (PipeWriter id)
                        (EncTarget payload) with
                | Some e => (log2, Done (c, Err e))
                | None =>
                    let i :=
                      {| enc := PipeWriter id;
                         ackMap := ∅;
                         curr := 0%Z;
                         ackCh := make_chan InsertsStreamAck 0;
                         errCh := make_chan error 1;
                         closer := {| closer_req := PipeReader id;
                                      closer_resp := resp_Body res_ |} |} in
                    (log2,
                     Done ({| baseURL := baseURL c;
                              rows := rows c;
                              insertsStreamWriters :=
                                insertsStreamWriters c ++ [Some i] |},
                           Ok i))
                end
            end
        end
    end.
Proof.
  unfold InsertsStream, bind, io_Pipe, http_Do, Encoder_Encode, Write, perform.
  simpl.
  destruct (makeRequest deps _ _ _ _) as [req|]; [| reflexivity].
  destruct (on_Do env _ req) as [res_|]; [| reflexivity].
  destruct (marshal deps _); [reflexivity |].
  destruct (on_Write env _ _ _); reflexivity.
Qed.


(** Opening a stream where everything succeeds. *)
Example InsertsStream_opens :
  InsertsStream plain_deps (lenient_env None) empty_client {| Target := "orders" |} []
  = ([CallPipe;
      CallDo {| req_method := "POST"; req_url := "http://ksql:8088/inserts-stream";
                req_body := PipeBody (PipeReader 0) |};
      CallWrite (PipeWriter 0) (EncTarget {| Target := "orders" |})],
     Done ({| baseURL := "http://ksql:8088"; rows := [];
              insertsStreamWriters := [Some fresh_writer] |},
           Ok fresh_writer)).
Proof. reflexivity. Qed.

(** ** Sequence numbers of inserts *)

Lemma Insert_eq deps env pending w record log :
  exists log' r,
    Insert deps env pending w record log
    = (log',
       Done ({| enc := enc w;
                ackMap := <[curr w := pending]> (ackMap w);
                curr := (curr w + 1)%Z;
                ackCh := ackCh w;
                errCh := errCh w;
                closer := closer w |}, r))
    /\ (r = Ok (curr w) \/ exists e, r = Err e).
Proof.
  unfold Insert, bind, Encoder_Encode.
  destruct (marshal deps _) as [e|]; [simpl; eauto 6 |].
  unfold Write, perform.
  destruct (on_Write env log (enc w) _); simpl; eauto 6.
Qed.

(** Sequential inserts always return, one result per record; the
    results that are sequence numbers count up from the stream's counter. *)
Lemma Insert_all_spec deps env pending records : forall w log s,
  curr w = Z.of_nat s ->
  exists log' w' rs,
    Insert_all deps env pending w records log = (log', Done (w', rs))
    /\ length rs = length records
    /\ curr w' = Z.of_nat (s + length records)
    /\ forall zs, rs = Ok <$> zs -> zs = Z.of_nat <$> seq s (length records).
Proof.
  induction records as [|record rest IH]; intros w log s Hs.
  - exists log, w, []. simpl. rewrite Nat.add_0_r.
    repeat split; [exact Hs |]. intros [|z zs]; [reflexivity | discriminate].
  - destruct (Insert_eq deps env pending w record log) as (log1 & r & Hins & Hr).
    match type of Hins with _ = (_, Done (?x, _)) => set (w1 := x) in * end.
    simpl. unfold bind at 1. rewrite Hins. simpl.
    destruct (IH w1 log1 (S s)) as (log' & w' & rs & Hrun & Hlen & Hcurr & Hzs);
      [simpl; lia |].
    unfold bind at 1. rewrite Hrun. simpl.
    exists log', w', (r :: rs). repeat split.
    + simpl. rewrite Hlen. reflexivity.
    + rewrite Hcurr. f_equal. lia.
    + intros [|z zs]; [discriminate |]. simpl. intros [= -> ->].
      rewrite (Hzs zs eq_refl). f_equal.
      destruct Hr as [[= ->]|[e [=]]]. exact Hs.
Qed.

(** C8: on a stream handle returned by [InsertsStream], N sequential
    inserts that all succeed return the sequence numbers 0, 1, ..., N-1 in
    this order; no number occurs twice. *)
Theorem Insert_returns_consecutive_numbers
    deps env pending c payload log0 log c' w records log' w' zs :
  InsertsStream deps env c payload log0 = (log, Done (c', Ok w)) ->
  Insert_all deps env pending w records log = (log', Done (w', Ok <$> zs)) ->
  zs = Z.of_nat <$> seq 0 (length records) /\ NoDup zs.
Proof.
  intros Hopen Hrun.
  assert (Hcurr : curr w = Z.of_nat 0).
  { rewrite InsertsStream_eq in Hopen. cbv zeta in Hopen.
    destruct (makeRequest deps _ _ _ _); [| discriminate].
    destruct (on_Do env _ _); [| discriminate].
    destruct (marshal deps _); [discriminate |].
    destruct (on_Write env _ _ _); [discriminate |].
    injection Hopen as _ _ <-. reflexivity. }
  destruct (Insert_all_spec deps env pending records w log 0 Hcurr)
    as (log1 & w1 & rs & Hrun' & _ & _ & Hzs).
  rewrite Hrun in Hrun'. injection Hrun' as _ _ <-.
  assert (Heq : zs = Z.of_nat <$> seq 0 (length records)) by (apply Hzs; reflexivity).
  split; [exact Heq |].
  rewrite Heq. apply NoDup_fmap_2; [| apply NoDup_seq].
  intros x y. apply Nat2Z.inj.
Qed.

Lemma Insert_returns_consecutive_numbers_witness :
  [0%Z; 1%Z; 2%Z] = Z.of_nat <$> seq 0 3 /\ NoDup [0%Z; 1%Z; 2%Z].
Proof.
  exact (Insert_returns_consecutive_numbers
           plain_deps (lenient_env None) "pending" empty_client {| Target := "orders" |}
           [] _ _ fresh_writer [JObject []; JObject []; JObject []] _ _ [0%Z; 1%Z; 2%Z]
           eq_refl eq_refl).
Defined.

(** ** The acknowledgement reader *)

Lemma extends_refl st : extends st st.
Proof. exists []. symmetry. apply app_nil_r. Qed.

Lemma extends_trans st1 st2 st3 : extends st1 st2 -> extends st2 st3 -> extends st1 st3.
Proof.
  intros [m1 H1] [m2 H2]. exists (m1 ++ m2). rewrite H2, H1. symmetry. apply app_assoc.
Qed.

Lemma bind_extends {A B} (m : ST reader_state A) (k : A -> ST reader_state B) :
  (forall st, extends st (fst (m st))) ->
  (forall a st, extends st (fst (k a st))) ->
  forall st, extends st (fst (bind m k st)).
Proof.
  intros Hm Hk st. unfold bind. specialize (Hm st).
  destruct (m st) as [st1 [a| |]]; simpl in *; try exact Hm.
  eapply extends_trans; [exact Hm | apply Hk].
Qed.

Lemma defer_extends {A B} (d : ST reader_state B) (body : ST reader_state A) :
  (forall st, extends st (fst (d st))) ->
  (forall st, extends st (fst (body st))) ->
  forall st, extends st (fst (defer d body st)).
Proof.
  intros Hd Hb st. unfold defer. specialize (Hb st).
  destruct (body st) as [st1 o]. specialize (Hd st1). simpl in *.
  destruct o; destruct (d st1) as [st2 [b| |]]; simpl in *;
    first [exact Hb | eapply extends_trans; eassumption].
Qed.

Lemma send_ack_extends a st : extends st (fst (send_ack a st)).
Proof.
  unfold send_ack, chan_send. destruct (closed (st_ackCh st)); simpl.
  - apply extends_refl.
  - eexists. reflexivity.
Qed.

Lemma send_err_extends e st : extends st (fst (send_err e st)).
Proof.
  unfold send_err, chan_send. destruct (closed (st_errCh st)); simpl.
  - apply extends_refl.
  - eexists. reflexivity.
Qed.

Lemma close_err_extends st : extends st (fst (close_err st)).
Proof.
  unfold close_err, chan_close. destruct (closed (st_errCh st)); simpl.
  - apply extends_refl.
  - eexists. reflexivity.
Qed.

Lemma close_ack_extends st : extends st (fst (close_ack st)).
Proof.
  unfold close_ack, chan_close. destruct (closed (st_ackCh st)); simpl.
  - apply extends_refl.
  - eexists. reflexivity.
Qed.

Lemma report_extends (o : option error) st :
  extends st
    (fst (match o with
          | Some err => let* _ := send_err err in close_err
          | None => ret tt
          end st)).
Proof.
  destruct o as [err|]; [| apply extends_refl].
  apply bind_extends; intros; [apply send_err_extends | apply close_err_extends].
Qed.

Lemma scan_loop_extends deps lines : forall st,
  extends st (fst (scan_loop deps lines st)).
Proof.
  induction lines as [|b rest IH]; intros st; [apply extends_refl |].
  simpl. apply bind_extends; [intros; apply report_extends |].
  intros _ st1. apply bind_extends; [intros; apply send_ack_extends |].
  intros _ st2. apply IH.
Qed.

(** C1 (what the code does): when a line fails to decode, the reader
    sends the error and closes the error channel, and then goes on: it
    sends the acknowledgement it holds for that line on the
    acknowledgement channel and scans the lines that follow. *)
Theorem ack_reader_goes_on_after_decode_error deps w b rest sc_err e :
  closed (ackCh w) = false ->
  closed (errCh w) = false ->
  snd (Unmarshal_ack deps b) = Some e ->
  exists more,
    events (fst (ack_reader deps (b :: rest) sc_err (reader_start w)))
    = [ErrSent e; ErrClosed; AckSent (fst (Unmarshal_ack deps b))] ++ more.
Proof.
  intros Hack Herr Hdec.
  set (st3 :=
         {| st_ackCh := {| capacity := capacity (ackCh w);
                           sent := sent (ackCh w) ++ [fst (Unmarshal_ack deps b)];
                           closed := false |};
            st_errCh := {| capacity := capacity (errCh w);
                           sent := sent (errCh w) ++ [e];
                           closed := true |};
            events := [ErrSent e; ErrClosed; AckSent (fst (Unmarshal_ack deps b))] |}).
  assert (Hstep :
    ack_reader deps (b :: rest) sc_err (reader_start w)
    = defer close_ack
        (let* _ := scan_loop deps rest in
         match sc_err with
         | Some err => let* _ := send_err err in close_err
         | None => ret tt
         end) st3).
  { unfold ack_reader, defer. simpl. rewrite Hdec.
    unfold bind at 1 2 3. unfold send_err at 1, chan_send. simpl. rewrite Herr.
    unfold close_err at 1, chan_close. simpl.
    unfold bind at 1 2. unfold send_ack at 1, chan_send. simpl. rewrite Hack.
    reflexivity. }
  rewrite Hstep.
  apply (defer_extends close_ack _ close_ack_extends) with (st := st3).
  intros st. apply bind_extends; [apply scan_loop_extends |].
  intros _ st1. apply report_extends.
Qed.

Lemma ack_reader_goes_on_after_decode_error_witness :
  exists more,
    events (fst (ack_reader plain_deps ["oops"; ack_line "0"] None
                   (reader_start fresh_writer)))
    = [ErrSent (ErrMsg "invalid character"); ErrClosed; AckSent zero_ack] ++ more.
Proof.
  exact (ack_reader_goes_on_after_decode_error plain_deps fresh_writer
           "oops" [ack_line "0"] None _ eq_refl eq_refl eq_refl).
Defined.

(** One bad line, then a good one: both are delivered as acknowledgements
    after the error channel was closed. *)
Example ack_reader_bad_then_good :
  ack_reader plain_deps ["oops"; ack_line "0"] None (reader_start fresh_writer)
  = ({| st_ackCh := {| capacity := 0;
                       sent := [zero_ack; {| Status := "ok"; Seq := 0%Z |}];
                       closed := true |};
        st_errCh := {| capacity := 1;
                       sent := [ErrMsg "invalid character"];
                       closed := true |};
        events := [ErrSent (ErrMsg "invalid character"); ErrClosed;
                   AckSent zero_ack;
                   AckSent {| Status := "ok"; Seq := 0%Z |};
                   AckClosed] |},
     Done tt).
Proof. reflexivity. Qed.

(** Two bad lines: the second error is sent on the closed channel. *)
Example ack_reader_two_bad_lines :
  ack_reader plain_deps ["oops"; "oops"] None (reader_start fresh_writer)
  = ({| st_ackCh := {| capacity := 0; sent := [zero_ack]; closed := true |};
        st_errCh := {| capacity := 1;
                       sent := [ErrMsg "invalid character"];
                       closed := true |};
        events := [ErrSent (ErrMsg "invalid character"); ErrClosed;
                   AckSent zero_ack; AckClosed] |},
     Panicked SendOnClosedChannel).
Proof. reflexivity. Qed.

(** A bad line, then a failure of the scanner: the same panic. *)
Example ack_reader_bad_line_then_io_error :
  snd (ack_reader plain_deps ["oops"] (Some (ErrMsg "unexpected EOF"))
         (reader_start fresh_writer))
  = Panicked SendOnClosedChannel.
Proof. reflexivity. Qed.

(** ** Acknowledgements and the table of issued numbers *)






(** A failure of the scanner alone is reported once, then both channels
    are closed. *)
Example ack_reader_io_error :
  events (fst (ack_reader plain_deps [ack_line "0"] (Some (ErrMsg "unexpected EOF"))
                 (reader_start fresh_writer)))
  = [AckSent {| Status := "ok"; Seq := 0%Z |};
     ErrSent (ErrMsg "unexpected EOF"); ErrClosed; AckClosed].
Proof. reflexivity. Qed.


(** * Further properties of the code *)

(** ** The acknowledgement reader, in every run *)

Lemma send_ack_open a st :
  closed (st_ackCh st) = false -> send_ack a st = (with_ack a st, Done tt).
Proof. intros H. unfold send_ack, chan_send. rewrite H. reflexivity. Qed.

Lemma report_open e st :
  closed (st_errCh st) = false ->
  (let* _ := send_err e in close_err) st = (with_err e st, Done tt).
Proof.
  intros H. unfold bind, send_err, close_err, chan_send, chan_close.
  rewrite H. reflexivity.
Qed.

Lemma report_closed e st :
  closed (st_errCh st) = true ->
  (let* _ := send_err e in close_err) st = (st, Panicked SendOnClosedChannel).
Proof. intros H. unfold bind, send_err, chan_send. rewrite H. reflexivity. Qed.

Lemma scan_loop_good deps b rest st :
  snd (Unmarshal_ack deps b) = None ->
  closed (st_ackCh st) = false ->
  scan_loop deps (b :: rest) st
  = scan_loop deps rest (with_ack (fst (Unmarshal_ack deps b)) st).
Proof.
  intros Hb Ha. simpl. rewrite Hb. unfold bind at 1 2. unfold ret at 1.
  rewrite (send_ack_open _ _ Ha). reflexivity.
Qed.

Lemma scan_loop_bad_open deps b rest st e :
  snd (Unmarshal_ack deps b) = Some e ->
  closed (st_errCh st) = false ->
  closed (st_ackCh st) = false ->
  scan_loop deps (b :: rest) st
  = scan_loop deps rest (with_ack (fst (Unmarshal_ack deps b)) (with_err e st)).
Proof.
  intros Hb He Ha. simpl. rewrite Hb. unfold bind at 1.
  rewrite (report_open e st He). unfold bind at 1.
  rewrite send_ack_open by exact Ha. reflexivity.
Qed.

Lemma scan_loop_bad_closed deps b rest st e :
  snd (Unmarshal_ack deps b) = Some e ->
  closed (st_errCh st) = true ->
  scan_loop deps (b :: rest) st = (st, Panicked SendOnClosedChannel).
Proof.
  intros Hb He. simpl. rewrite Hb. unfold bind at 1.
  rewrite (report_closed e st He). reflexivity.
Qed.

(** Everything the loop does to the two channels. *)
Lemma scan_loop_spec deps lines : forall st,
  closed (st_ackCh st) = false ->
  closed (st_ackCh (fst (scan_loop deps lines st))) = false
  /\ snd (scan_loop deps lines st)
     = (if Nat.leb (errors_pending st + count_failures deps lines) 1
        then Done tt else Panicked SendOnClosedChannel)
  /\ closed (st_errCh (fst (scan_loop deps lines st)))
     = closed (st_errCh st) || Nat.ltb 0 (count_failures deps lines)
  /\ sent (st_errCh (fst (scan_loop deps lines st)))
     = sent (st_errCh st)
         ++ (if closed (st_errCh st) then []
             else match first_decode_error deps lines with
                  | Some e => [e]
                  | None => []
                  end)
  /\ (snd (scan_loop deps lines st) = Done tt ->
      sent (st_ackCh (fst (scan_loop deps lines st)))
      = sent (st_ackCh st) ++ map (fun b => fst (Unmarshal_ack deps b)) lines).
Proof.
  induction lines as [|b rest IH]; intros st Ha.
  - simpl. unfold errors_pending. rewrite Nat.add_0_r, orb_false_r, !app_nil_r.
    repeat split; try assumption.
    + destruct (closed (st_errCh st)); reflexivity.
    + destruct (closed (st_errCh st)); rewrite ?app_nil_r; reflexivity.
  - simpl count_failures. simpl first_decode_error. unfold decode_fails.
    destruct (snd (Unmarshal_ack deps b)) as [e|] eqn:Hb.
    + destruct (closed (st_errCh st)) eqn:He.
      * rewrite (scan_loop_bad_closed deps b rest st e Hb He). simpl.
        unfold errors_pending. rewrite He, app_nil_r. simpl.
        repeat split; try assumption. discriminate.
      * rewrite (scan_loop_bad_open deps b rest st e Hb He Ha).
        destruct (IH (with_ack (fst (Unmarshal_ack deps b)) (with_err e st)) eq_refl)
          as (H1 & H2 & H3 & H4 & H5).
        unfold errors_pending in *. simpl in H2, H3, H4, H5. rewrite He.
        repeat split.
        -- exact H1.
        -- rewrite H2. reflexivity.
        -- rewrite H3. reflexivity.
        -- rewrite H4, app_nil_r. reflexivity.
        -- intros Hd. rewrite (H5 Hd). simpl. rewrite <- app_assoc. reflexivity.
    + rewrite (scan_loop_good deps b rest st Hb Ha).
      destruct (IH (with_ack (fst (Unmarshal_ack deps b)) st) eq_refl)
        as (H1 & H2 & H3 & H4 & H5).
      unfold errors_pending in *. simpl in H2, H3, H4, H5.
      repeat split.
      -- exact H1.
      -- rewrite H2. reflexivity.
      -- rewrite H3. reflexivity.
      -- rewrite H4. reflexivity.
      -- intros Hd. rewrite (H5 Hd). simpl. rewrite <- app_assoc. reflexivity.
Qed.

Lemma close_ack_open st :
  closed (st_ackCh st) = false -> close_ack st = (with_ack_closed st, Done tt).
Proof. intros H. unfold close_ack, chan_close. rewrite H. reflexivity. Qed.

(** The goroutine is the loop, the scanner's report, and the deferred
    close, whatever the loop did. *)
Lemma ack_reader_eq deps lines sc_err st :
  closed (st_ackCh st) = false ->
  ack_reader deps lines sc_err st
  = match scan_loop deps lines st with
    | (st1, Done _) =>
        match sc_err with
        | None => (with_ack_closed st1, Done tt)
        | Some e =>
            if closed (st_errCh st1)
            then (with_ack_closed st1, Panicked SendOnClosedChannel)
            else (with_ack_closed (with_err e st1), Done tt)
        end
    | (st1, Panicked p) => (with_ack_closed st1, Panicked p)
    | (st1, Unfinished) => (st1, Unfinished)
    end.
Proof.
  intros Ha.
  destruct (scan_loop_spec deps lines st Ha) as (H1 & _).
  unfold ack_reader, defer. unfold bind at 1.
  destruct (scan_loop deps lines st) as [st1 [[]| |]]; simpl in H1.
  - destruct sc_err as [e|].
    + destruct (closed (st_errCh st1)) eqn:He.
      * rewrite (report_closed e st1 He), (close_ack_open st1 H1). reflexivity.
      * rewrite (report_open e st1 He), close_ack_open; [reflexivity | exact H1].
    + unfold ret. rewrite (close_ack_open st1 H1). reflexivity.
  - rewrite (close_ack_open st1 H1). reflexivity.
  - reflexivity.
Qed.

Lemma scan_loop_never_closes_acks deps lines : forall st,
  closed (st_ackCh st) = false ->
  ~ In AckClosed (events st) ->
  ~ In AckClosed (events (fst (scan_loop deps lines st))).
Proof.
  induction lines as [|b rest IH]; intros st Ha Hev; [exact Hev |].
  destruct (snd (Unmarshal_ack deps b)) as [e|] eqn:Hb.
  - destruct (closed (st_errCh st)) eqn:He.
    + rewrite (scan_loop_bad_closed deps b rest st e Hb He). exact Hev.
    + rewrite (scan_loop_bad_open deps b rest st e Hb He Ha).
      apply IH; [reflexivity |]. simpl.
      rewrite !in_app_iff. simpl. intros [[[H|[H|[]]]|[H|[]]]|[H|[]]];
        first [exact (Hev H) | discriminate H].
  - rewrite (scan_loop_good deps b rest st Hb Ha).
    apply IH; [reflexivity |]. simpl.
    rewrite in_app_iff. simpl. intros [H|[H|[]]];
      first [exact (Hev H) | discriminate H].
Qed.

(** X1: the reader ends without a panic exactly when at most one thing
    failed in the run, counting the lines that do not decode and the
    scanner's own failure; with two or more failures it panics with a send
    on the closed error channel. *)
Theorem ack_reader_panics_on_second_failure deps w lines sc_err :
  closed (ackCh w) = false ->
  closed (errCh w) = false ->
  snd (ack_reader deps lines sc_err (reader_start w))
  = if Nat.leb (run_failures deps lines sc_err) 1
    then Done tt else Panicked SendOnClosedChannel.
Proof.
  intros Ha He.
  rewrite (ack_reader_eq deps lines sc_err (reader_start w) Ha).
  destruct (scan_loop_spec deps lines (reader_start w) Ha) as (_ & H2 & H3 & _).
  unfold errors_pending in H2. simpl in H2, H3. rewrite He in H2, H3. simpl in H2, H3.
  unfold run_failures.
  destruct (scan_loop deps lines (reader_start w)) as [st1 o1]. simpl in H2, H3.
  subst o1. destruct (count_failures deps lines) as [|[|n]]; simpl in *.
  - destruct sc_err; [rewrite H3 |]; reflexivity.
  - destruct sc_err; [rewrite H3 |]; reflexivity.
  - reflexivity.
Qed.

Lemma ack_reader_panics_on_second_failure_witness :
  snd (ack_reader plain_deps ["oops"; ack_line "0"; "oops"] None
         (reader_start fresh_writer))
  = Panicked SendOnClosedChannel.
Proof.
  exact (ack_reader_panics_on_second_failure plain_deps fresh_writer
           ["oops"; ack_line "0"; "oops"] None eq_refl eq_refl).
Defined.

(** X2: however the run ends, also by a panic, the reader closes the
    acknowledgement channel, as its last step and only then. *)
Theorem ack_reader_closes_ackCh_last deps w lines sc_err :
  closed (ackCh w) = false ->
  closed (st_ackCh (fst (ack_reader deps lines sc_err (reader_start w)))) = true
  /\ exists evs,
       events (fst (ack_reader deps lines sc_err (reader_start w)))
       = evs ++ [AckClosed]
       /\ ~ In AckClosed evs.
Proof.
  intros Ha.
  rewrite (ack_reader_eq deps lines sc_err (reader_start w) Ha).
  destruct (scan_loop_spec deps lines (reader_start w) Ha) as (_ & H2 & _).
  pose proof (scan_loop_never_closes_acks deps lines (reader_start w) Ha
                (fun H => H)) as Hev.
  destruct (scan_loop deps lines (reader_start w)) as [st1 o1]. simpl in H2, Hev.
  destruct o1 as [[]|p|].
  - destruct sc_err as [e|]; [destruct (closed (st_errCh st1)) |]; simpl.
    + split; [reflexivity |]. exists (events st1). split; [reflexivity | exact Hev].
    + split; [reflexivity |]. eexists. split; [reflexivity |].
      rewrite !in_app_iff. simpl. intros [[H|[H|[]]]|[H|[]]];
        first [exact (Hev H) | discriminate H].
    + split; [reflexivity |]. exists (events st1). split; [reflexivity | exact Hev].
  - simpl. split; [reflexivity |]. exists (events st1).
    split; [reflexivity | exact Hev].
  - destruct (Nat.leb _ 1); discriminate H2.
Qed.

Lemma ack_reader_closes_ackCh_last_witness :
  closed (st_ackCh (fst (ack_reader plain_deps ["oops"; "oops"] None
                           (reader_start fresh_writer)))) = true
  /\ exists evs,
       events (fst (ack_reader plain_deps ["oops"; "oops"] None
                      (reader_start fresh_writer)))
       = evs ++ [AckClosed]
       /\ ~ In AckClosed evs.
Proof.
  exact (ack_reader_closes_ackCh_last plain_deps fresh_writer ["oops"; "oops"] None
           eq_refl).
Defined.

Lemma first_decode_error_none deps lines :
  first_decode_error deps lines = None <-> count_failures deps lines = 0.
Proof.
  induction lines as [|b rest IH]; simpl; [tauto |].
  unfold decode_fails. destruct (snd (Unmarshal_ack deps b)); simpl.
  - split; discriminate.
  - exact IH.
Qed.

(** X3: the error channel receives at most one error in a run, the first
    failure of the run, and is closed exactly when something failed; so
    its buffer of one is never exceeded. *)
Theorem ack_reader_reports_first_failure_only deps w lines sc_err :
  closed (ackCh w) = false ->
  closed (errCh w) = false ->
  sent (st_errCh (fst (ack_reader deps lines sc_err (reader_start w))))
  = sent (errCh w)
      ++ match first_failure deps lines sc_err with
         | Some e => [e]
         | None => []
         end
  /\ closed (st_errCh (fst (ack_reader deps lines sc_err (reader_start w))))
     = Nat.ltb 0 (run_failures deps lines sc_err).
Proof.
  intros Ha He.
  rewrite (ack_reader_eq deps lines sc_err (reader_start w) Ha).
  destruct (scan_loop_spec deps lines (reader_start w) Ha) as (_ & H2 & H3 & H4 & _).
  pose proof (first_decode_error_none deps lines) as Hnone.
  unfold errors_pending in H2. simpl in H2, H3, H4. rewrite He in H2, H3, H4.
  simpl in H2, H3. unfold first_failure, run_failures.
  destruct (scan_loop deps lines (reader_start w)) as [st1 o1]. simpl in H2, H3, H4.
  destruct (count_failures deps lines) as [|n].
  - rewrite (proj2 Hnone eq_refl) in *. simpl in H2, H3. subst o1.
    destruct sc_err as [e|]; [rewrite H3 |]; simpl; rewrite ?H4, ?H3; auto.
    rewrite app_nil_r. auto.
  - destruct (first_decode_error deps lines) as [e1|];
      [| destruct Hnone as [Hn _]; discriminate (Hn eq_refl)].
    simpl in H3.
    destruct o1 as [[]|p|]; [| | destruct n; discriminate H2].
    + destruct sc_err as [e|]; [rewrite H3 |]; simpl; rewrite H4, H3; auto.
    + simpl. rewrite H4, H3. auto.
Qed.

Lemma ack_reader_reports_first_failure_only_witness :
  sent (st_errCh (fst (ack_reader plain_deps [ack_line "1"; "oops"]
                         (Some (ErrMsg "unexpected EOF")) (reader_start fresh_writer))))
  = sent (errCh fresh_writer)
      ++ match first_failure plain_deps [ack_line "1"; "oops"]
                 (Some (ErrMsg "unexpected EOF")) with
         | Some e => [e]
         | None => []
         end
  /\ closed (st_errCh (fst (ack_reader plain_deps [ack_line "1"; "oops"]
                              (Some (ErrMsg "unexpected EOF"))
                              (reader_start fresh_writer))))
     = Nat.ltb 0 (run_failures plain_deps [ack_line "1"; "oops"]
                    (Some (ErrMsg "unexpected EOF"))).
Proof.
  exact (ack_reader_reports_first_failure_only plain_deps fresh_writer
           [ack_line "1"; "oops"] (Some (ErrMsg "unexpected EOF")) eq_refl eq_refl).
Defined.

(** X4: in a run with at most one failure the reader sends one
    acknowledgement per scanned line, in the order of the lines; for a line
    that failed to decode this is the value the failed decode left. *)
Theorem ack_reader_sends_one_ack_per_line deps w lines sc_err :
  closed (ackCh w) = false ->
  closed (errCh w) = false ->
  run_failures deps lines sc_err <= 1 ->
  sent (st_ackCh (fst (ack_reader deps lines sc_err (reader_start w))))
  = sent (ackCh w) ++ map (fun b => fst (Unmarshal_ack deps b)) lines.
Proof.
  intros Ha He Hf.
  rewrite (ack_reader_eq deps lines sc_err (reader_start w) Ha).
  destruct (scan_loop_spec deps lines (reader_start w) Ha) as (_ & H2 & _ & _ & H5).
  unfold errors_pending in H2. simpl in H2, H5. rewrite He in H2. simpl in H2.
  unfold run_failures in Hf.
  assert (Hle : Nat.leb (count_failures deps lines) 1 = true)
    by (apply Nat.leb_le; lia).
  rewrite Hle in H2.
  destruct (scan_loop deps lines (reader_start w)) as [st1 o1]. simpl in H2, H5.
  subst o1. specialize (H5 eq_refl).
  destruct sc_err as [e|]; [destruct (closed (st_errCh st1)) |]; simpl; exact H5.
Qed.

Lemma ack_reader_sends_one_ack_per_line_witness :
  sent (st_ackCh (fst (ack_reader plain_deps [ack_line "1"; "oops"; ack_line "0"] None
                         (reader_start fresh_writer))))
  = sent (ackCh fresh_writer)
      ++ map (fun b => fst (Unmarshal_ack plain_deps b))
             [ack_line "1"; "oops"; ack_line "0"].
Proof.
  apply (ack_reader_sends_one_ack_per_line plain_deps fresh_writer
           [ack_line "1"; "oops"; ack_line "0"] None eq_refl eq_refl).
  vm_compute. lia.
Defined.

(** ** Query, on every path *)

Lemma Query_decode_finishes deps by_ : Query_decode deps by_ <> Unfinished.
Proof.
  unfold Query_decode, Query_columns.
  destruct (Unmarshal_map by_); [discriminate |].
  destruct (Unmarshal_maps by_) as [[|first rest]|]; try discriminate.
  destruct (Json.lookup "header" first) as [[| | | | |headerMap]|]; try discriminate.
  destruct (Json.lookup "schema" headerMap) as [[| | | | |]|]; discriminate.
Qed.

(** [Query] once the transport answered. *)
Lemma Query_eq deps env c payload log req resp :
  marshal deps (EncQuery payload) = None ->
  makeRequest deps (baseURL c) (queryPath deps) http_MethodPost
    (BufBody (EncQuery payload)) = Ok req ->
  on_Do env log req = Ok resp ->
  Query deps env c payload log
  = (log ++ [CallDo req; CallReadAll (resp_Body resp); CallClose (resp_Body resp)],
     Query_decode deps (on_ReadAll env (log ++ [CallDo req]) (resp_Body resp))).
Proof.
  intros Hm Hr Hd. unfold Query. rewrite Hm, Hr.
  unfold bind, http_Do, perform at 1. rewrite Hd.
  unfold defer, bind, ioutil_ReadAll, Close, perform.
  pose proof (Query_decode_finishes deps
                (on_ReadAll env (log ++ [CallDo req]) (resp_Body resp))) as Hfin.
  destruct (Query_decode deps _); rewrite <- ?app_assoc;
    [reflexivity | reflexivity | destruct Hfin; reflexivity].
Qed.

(** A run of [Query] that returns rows went through the transport. *)
Lemma Query_ok_inv deps env c payload log log' qr :
  Query deps env c payload log = (log', Done (Ok qr)) ->
  exists req resp,
    marshal deps (EncQuery payload) = None
    /\ makeRequest deps (baseURL c) (queryPath deps) http_MethodPost
         (BufBody (EncQuery payload)) = Ok req
    /\ on_Do env log req = Ok resp.
Proof.
  unfold Query.
  destruct (marshal deps _); [discriminate |].
  destruct (makeRequest deps _ _ _ _) as [req|]; [| discriminate].
  unfold bind, http_Do, perform at 1.
  destruct (on_Do env log req) as [resp|] eqn:Hd; [| discriminate].
  intros _. exists req, resp. auto.
Qed.

(** X5: once the transport has answered, [Query] reads the whole body
    and closes it, exactly once and as its last call, on every path: when
    it returns rows, when it returns an error, and when it panics while
    decoding. *)
Theorem Query_closes_body_on_every_path deps env c payload log req resp :
  marshal deps (EncQuery payload) = None ->
  makeRequest deps (baseURL c) (queryPath deps) http_MethodPost
    (BufBody (EncQuery payload)) = Ok req ->
  on_Do env log req = Ok resp ->
  fst (Query deps env c payload log)
  = log ++ [CallDo req; CallReadAll (resp_Body resp); CallClose (resp_Body resp)].
Proof.
  intros Hm Hr Hd. rewrite (Query_eq deps env c payload log req resp Hm Hr Hd).
  reflexivity.
Qed.

Lemma Query_closes_body_on_every_path_witness :
  fst (Query plain_deps (lenient_env None) empty_client select_all [])
  = [] ++ [CallDo {| req_method := "POST"; req_url := "http://ksql:8088/query";
                     req_body := BufBody (EncQuery select_all) |};
           CallReadAll (Body 0); CallClose (Body 0)].
Proof.
  exact (Query_closes_body_on_every_path plain_deps (lenient_env None) empty_client
           select_all [] _ _ eq_refl eq_refl eq_refl).
Defined.

Lemma Unmarshal_elems_length elems : forall ms,
  Unmarshal_elems elems = Some ms -> length ms = length elems.
Proof.
  induction elems as [|v rest IH]; intros ms; simpl.
  - intros [= <-]. reflexivity.
  - destruct (Unmarshal_elem v); [| discriminate].
    destruct (Unmarshal_elems rest) as [ms'|]; [| discriminate].
    intros [= <-]. simpl. f_equal. apply IH. reflexivity.
Qed.

(** X6: when [Query] returns rows, the body was a JSON array, and the
    rows are its elements after the first: the first element is taken as
    the header and is never a row, whether or not it holds a header; so
    one row fewer than elements is returned. *)
Theorem Query_first_element_is_never_a_row deps env c payload log log' qr :
  Query deps env c payload log = (log', Done (Ok qr)) ->
  exists req resp elems first,
    on_ReadAll env (log ++ [CallDo req]) (resp_Body resp) = Some (JArray elems)
    /\ Unmarshal_elems elems = Some (first :: res qr)
    /\ S (length (res qr)) = length elems.
Proof.
  intros H.
  destruct (Query_ok_inv _ _ _ _ _ _ _ H) as (req & resp & Hm & Hr & Hd).
  rewrite (Query_eq deps env c payload log req resp Hm Hr Hd) in H.
  injection H as _ H. exists req, resp.
  destruct (on_ReadAll env _ _) as [v|]; [| discriminate H].
  unfold Query_decode in H.
  destruct v as [| | | |elems|]; try discriminate H.
  simpl in H.
  destruct (Unmarshal_elems elems) as [[|first rest]|] eqn:He; try discriminate H.
  destruct (Query_columns deps first); try discriminate H.
  injection H as <-. simpl. exists elems, first.
  split; [reflexivity |]. split; [exact He |].
  apply (Unmarshal_elems_length _ _ He).
Qed.

Lemma Query_first_element_is_never_a_row_witness :
  exists req resp elems first,
    on_ReadAll (lenient_env (Some (JArray [JObject [("row", JNull)];
                                           JObject [("row", JString "second")]])))
      ([] ++ [CallDo req]) (resp_Body resp) = Some (JArray elems)
    /\ Unmarshal_elems elems = Some (first :: [[("row", JString "second")]])
    /\ S (length [[("row", JString "second")]]) = length elems.
Proof.
  exact (Query_first_element_is_never_a_row plain_deps
           (lenient_env (Some (JArray [JObject [("row", JNull)];
                                       JObject [("row", JString "second")]])))
           empty_client select_all [] _
           {| res := [[("row", JString "second")]];
              qr_columns := {| count := (-1)%Z; names := [] |} |}
           eq_refl).
Defined.





(** The text of a [QueryError] without a message, and the panic on a
    message that is no string. *)
Example QueryError_Error_edges :
  QueryError_Error [] = Done "an unknown error occurred"
  /\ QueryError_Error [("message", JNumber "40001")] = Panicked InterfaceConversion.
Proof. split; reflexivity. Qed.

(** ** QueryStream and the session's readers *)

Lemma QueryStream_eq deps env c payload log :
  QueryStream deps env c payload log
  = match marshal deps (EncQueryStream payload) with
    | Some e => (log, Done (c, Err e))
    | None =>
        match makeRequest deps (baseURL c) (queryStreamPath deps) http_MethodPost
                (BufBody (EncQueryStream payload)) with
        | Err e => (log, Done (c, Err e))
        | Ok req =>
            match on_Do env log req with
            | Err e =>
                (log ++ [CallDo req],
                 Done (c, Err (ErrWrap "unable to get response" e)))
            | Ok resp =>
                let log2 := log ++ [CallDo req; CallDecodeHeader (resp_Body resp)] in
                match on_DecodeHeader env (log ++ [CallDo req]) (resp_Body resp) with
                | Err e => (log2, Done (c, Err e))
                | Ok header =>
                    let r :=
                      {| rows_body := {| queryID := hdr_QueryID header;
                                         qs_body := resp_Body resp;
                                         qs_client_baseURL := baseURL c |};
                         rows_dec := resp_Body resp;
                         rows_columns :=
                           {| count := Z.of_nat (length (ColumnNames header));
                              names := ColumnNames header |} |} in
                    (log2,
                     Done ({| baseURL := baseURL c;
                              rows := rows c ++ [Some r];
                              insertsStreamWriters := insertsStreamWriters c |},
                           Ok r))
                end
            end
        end
    end.
Proof.
  unfold QueryStream, bind, http_Do, Decode_header, perform.
  destruct (marshal deps _); [reflexivity |].
  destruct (makeRequest deps _ _ _ _) as [req|]; [| reflexivity].
  destruct (on_Do env log req) as [resp|]; [| reflexivity].
  cbv zeta. rewrite <- !app_assoc.
  destruct (on_DecodeHeader env _ _); reflexivity.
Qed.

(** X9: [QueryStream] always returns.  With a reader, it has appended
    exactly that reader to the end of the session's readers and left the
    readers before it, the insertion streams and the base URL as they
    were; with an error, the session is unchanged.  On no path does it
    close the response body: not after a header that fails to decode
    either. *)
Theorem QueryStream_registers_the_reader deps env c payload log :
  exists calls c' r,
    QueryStream deps env c payload log = (log ++ calls, Done (c', r))
    /\ (forall h, ~ In (CallClose h) calls)
    /\ match r with
       | Ok rd =>
           rows c' = rows c ++ [Some rd]
           /\ insertsStreamWriters c' = insertsStreamWriters c
           /\ baseURL c' = baseURL c
           /\ qs_client_baseURL (rows_body rd) = baseURL c
       | Err _ => c' = c
       end.
Proof.
  rewrite QueryStream_eq.
  destruct (marshal deps _).
  { exists [], c. eexists. rewrite app_nil_r.
    split; [reflexivity |]. split; [intros h [] | reflexivity]. }
  destruct (makeRequest deps _ _ _ _) as [req|].
  2: { exists [], c. eexists. rewrite app_nil_r.
       split; [reflexivity |]. split; [intros h [] | reflexivity]. }
  destruct (on_Do env log req) as [resp|].
  2: { exists [CallDo req], c. eexists.
       split; [reflexivity |]. split; [| reflexivity].
       intros h [H|[]]. discriminate H. }
  cbv zeta.
  destruct (on_DecodeHeader env _ _) as [header|].
  - do 3 eexists. split; [reflexivity |]. split.
    + intros h [H|[H|[]]]; discriminate H.
    + simpl. auto.
  - do 3 eexists. split; [reflexivity |]. split.
    + intros h [H|[H|[]]]; discriminate H.
    + reflexivity.
Qed.

Lemma range_Close_snoc {A} (close_member : A -> M (option error)) members m log :
  range_Close close_member (members ++ [Some m]) log
  = match range_Close close_member members log with
    | (log1, Done None) => close_member m log1
    | other => other
    end.
Proof.
  rewrite range_Close_app.
  destruct (range_Close close_member members log) as [log1 [[e|]| |]];
    try reflexivity.
  simpl. unfold bind, ret.
  destruct (close_member m log1) as [log2 [[e|]| |]]; reflexivity.
Qed.

(** X10: a reader opened by [QueryStream] is closed by the session's
    [Close]: after the readers registered before it, and before any
    insertion stream, [Close] sends the terminate request for the query
    identifier of the header and closes the body of the response that
    [QueryStream] received. *)
Theorem Client_Close_closes_opened_reader
    deps env fuel c payload log log1 c' rd :
  QueryStream deps env c payload log = (log1, Done (c', Ok rd)) ->
  exists req resp header,
    on_Do env log req = Ok resp
    /\ on_DecodeHeader env (log ++ [CallDo req]) (resp_Body resp) = Ok header
    /\ forall log2,
         Client_Close deps env fuel c' log2
         = match range_Close (QueryStreamRows_Close deps env) (rows c) log2 with
           | (log3, Done None) =>
               match queryStreamReadCloser_Close deps env
                       {| queryID := hdr_QueryID header;
                          qs_body := resp_Body resp;
                          qs_client_baseURL := baseURL c |} log3 with
               | (log4, Done None) =>
                   range_Close (InsertsStreamWriter_Close env fuel)
                     (insertsStreamWriters c) log4
               | other => other
               end
           | other => other
           end.
Proof.
  rewrite QueryStream_eq.
  destruct (marshal deps _); [discriminate |].
  destruct (makeRequest deps _ _ _ _) as [req|]; [| discriminate].
  destruct (on_Do env log req) as [resp|] eqn:Hd; [| discriminate].
  cbv zeta.
  destruct (on_DecodeHeader env _ _) as [header|] eqn:Hh; [| discriminate].
  intros [= _ <- <-]. exists req, resp, header.
  split; [exact Hd |]. split; [exact Hh |].
  intros log2. unfold Client_Close, bind. simpl rows. simpl insertsStreamWriters.
  rewrite range_Close_snoc. unfold QueryStreamRows_Close at 2. simpl rows_body.
  destruct (range_Close (QueryStreamRows_Close deps env) (rows c) log2)
    as [log3 [[e|]| |]]; try reflexivity.
  destruct (queryStreamReadCloser_Close deps env _ log3) as [log4 [[e|]| |]];
    reflexivity.
Qed.

Lemma Client_Close_closes_opened_reader_witness :
  exists req resp header,
    on_Do (lenient_env None) [] req = Ok resp
    /\ on_DecodeHeader (lenient_env None) ([] ++ [CallDo req]) (resp_Body resp)
       = Ok header
    /\ forall log2,
         Client_Close plain_deps (lenient_env None) 1
           {| baseURL := "http://ksql:8088";
              rows := [Some {| rows_body := sample_reader "q-1" 0;
                               rows_dec := Body 0;
                               rows_columns := {| count := 2%Z;
                                                  names := ["id"; "name"] |} |}];
              insertsStreamWriters := [] |} log2
         = match range_Close (QueryStreamRows_Close plain_deps (lenient_env None))
                   (rows empty_client) log2 with
           | (log3, Done None) =>
               match queryStreamReadCloser_Close plain_deps (lenient_env None)
                       {| queryID := hdr_QueryID header;
                          qs_body := resp_Body resp;
                          qs_client_baseURL := baseURL empty_client |} log3 with
               | (log4, Done None) =>
                   range_Close (InsertsStreamWriter_Close (lenient_env None) 1)
                     (insertsStreamWriters empty_client) log4
               | other => other
               end
           | other => other
           end.
Proof.
  exact (Client_Close_closes_opened_reader plain_deps (lenient_env None) 1
           empty_client {| qsp_KSQL := "SELECT * FROM t EMIT CHANGES;";
                           qsp_Properties := [] |}
           [] _ _ _ eq_refl).
Defined.

(** The calls of that composition, in a service that answers everything. *)
Example QueryStream_then_Close :
  Client_Close plain_deps (lenient_env None) 1
    (fst (match snd (QueryStream plain_deps (lenient_env None) empty_client
                       {| qsp_KSQL := "SELECT * FROM t EMIT CHANGES;";
                          qsp_Properties := [] |} []) with
          | Done r => r
          | _ => (empty_client, Err (ErrMsg ""))
          end)) []
  = ([CallDo (close_query_request "q-1"); CallClose (Body 0)], Done None).
Proof. reflexivity. Qed.

(** ** Insertion streams and the session *)

(** X11: a stream opened by [InsertsStream] is closed by the session's
    [Close] last, after every reader and every stream registered before
    it: [Close] closes the read end of the pipe the target was written to,
    then drains and closes the body of the response to the opening
    request. *)
Theorem Client_Close_closes_opened_stream
    deps env fuel c payload log log1 c' w :
  InsertsStream deps env c payload log = (log1, Done (c', Ok w)) ->
  exists id req resp,
    enc w = PipeWriter id
    /\ on_Do env (log ++ [CallPipe]) req = Ok resp
    /\ forall log2,
         Client_Close deps env fuel c' log2
         = match range_Close (QueryStreamRows_Close deps env) (rows c) log2 with
           | (log3, Done None) =>
               match range_Close (InsertsStreamWriter_Close env fuel)
                       (insertsStreamWriters c) log3 with
               | (log4, Done None) =>
                   InsertsStreamCloser_Close env fuel
                     {| closer_req := PipeReader id;
                        closer_resp := resp_Body resp |} log4
               | other => other
               end
           | other => other
           end.
Proof.
  rewrite InsertsStream_eq. cbv zeta.
  destruct (makeRequest deps _ _ _ _) as [req|]; [| discriminate].
  destruct (on_Do env _ req) as [resp|] eqn:Hd; [| discriminate].
  destruct (marshal deps _); [discriminate |].
  destruct (on_Write env _ _ _); [discriminate |].
  intros [= _ <- <-]. exists (on_Pipe env log), req, resp.
  split; [reflexivity |]. split; [exact Hd |].
  intros log2. unfold Client_Close, bind. simpl rows. simpl insertsStreamWriters.
  destruct (range_Close (QueryStreamRows_Close deps env) (rows c) log2)
    as [log3 [[e|]| |]]; try reflexivity.
  cbn [insertsStreamWriters]. rewrite range_Close_snoc.
  destruct (range_Close (InsertsStreamWriter_Close env fuel)
              (insertsStreamWriters c) log3) as [log4 [[e|]| |]]; reflexivity.
Qed.

Lemma Client_Close_closes_opened_stream_witness :
  exists id req resp,
    enc fresh_writer = PipeWriter id
    /\ on_Do (lenient_env None) ([] ++ [CallPipe]) req = Ok resp
    /\ forall log2,
         Client_Close plain_deps (lenient_env None) 1
           {| baseURL := "http://ksql:8088"; rows := [];
              insertsStreamWriters := [Some fresh_writer] |} log2
         = match range_Close (QueryStreamRows_Close plain_deps (lenient_env None))
                   (rows empty_client) log2 with
           | (log3, Done None) =>
               match range_Close (InsertsStreamWriter_Close (lenient_env None) 1)
                       (insertsStreamWriters empty_client) log3 with
               | (log4, Done None) =>
                   InsertsStreamCloser_Close (lenient_env None) 1
                     {| closer_req := PipeReader id;
                        closer_resp := resp_Body resp |} log4
               | other => other
               end
           | other => other
           end.
Proof.
  exact (Client_Close_closes_opened_stream plain_deps (lenient_env None) 1
           empty_client {| Target := "orders" |} [] _ _ _ eq_refl).
Defined.

Lemma range_Close_without_nil {A} (close_member : A -> M (option error)) members :
  forall log,
    range_Close close_member (without_nil members) log
    = range_Close close_member members log.
Proof.
  induction members as [|[m|] rest IH]; intros log; simpl.
  - reflexivity.
  - unfold bind. destruct (close_member m log) as [log1 [[e|]| |]]; try reflexivity.
    apply IH.
  - apply IH.
Qed.

(** X12: nil entries of the two membership slices have no effect on
    [Close]: it makes the same calls and returns the same as on the session
    without them. *)
Theorem Client_Close_skips_nil_members deps env fuel c log :
  Client_Close deps env fuel c log
  = Client_Close deps env fuel
      {| baseURL := baseURL c;
         rows := without_nil (rows c);
         insertsStreamWriters := without_nil (insertsStreamWriters c) |} log.
Proof.
  unfold Client_Close, bind. simpl.
  rewrite range_Close_without_nil.
  destruct (range_Close (QueryStreamRows_Close deps env) (rows c) log)
    as [log1 [[e|]| |]]; try reflexivity.
  symmetry. apply range_Close_without_nil.
Qed.

(** ** Closing an insertion stream: when it does not return, and its errors *)

Lemma io_Copy_Discard_endless env src fuel : forall log,
  (forall k, exists n,
      on_Read env (log ++ replicate k (CallRead src)) src = ReadData n) ->
  io_Copy_Discard env fuel src log
  = (log ++ replicate fuel (CallRead src), Unfinished).
Proof.
  induction fuel as [|fuel IH]; intros log Hdata.
  - simpl. rewrite app_nil_r. reflexivity.
  - destruct (Hdata 0) as [n Hn]. simpl in Hn. rewrite app_nil_r in Hn.
    simpl. unfold bind, Read, perform. rewrite Hn.
    rewrite IH.
    + rewrite log_snoc_replicate. reflexivity.
    + intros k. rewrite log_snoc_replicate. apply Hdata.
Qed.

(** X13: while the service keeps sending on the response body, [Close]
    of an insertion stream does not return: after closing the outbound
    path it only reads, for as long as it is run, and the response body is
    not closed. *)
Theorem InsertsStreamCloser_Close_blocks_on_endless_body env i log :
  on_Close env log (closer_req i) = None ->
  (forall k, exists n,
      on_Read env (log ++ CallClose (closer_req i)
                       :: replicate k (CallRead (closer_resp i)))
        (closer_resp i) = ReadData n) ->
  forall fuel,
    InsertsStreamCloser_Close env fuel i log
    = (log ++ CallClose (closer_req i) :: replicate fuel (CallRead (closer_resp i)),
       Unfinished).
Proof.
  intros Hreq Hdata fuel.
  rewrite InsertsStreamCloser_Close_eq, Hreq.
  rewrite io_Copy_Discard_endless.
  - rewrite <- app_assoc. reflexivity.
  - intros k. rewrite <- app_assoc. apply Hdata.
Qed.

Lemma InsertsStreamCloser_Close_blocks_on_endless_body_witness :
  InsertsStreamCloser_Close endless_env 4 sample_closer []
  = ([] ++ CallClose (PipeReader 0) :: replicate 4 (CallRead (Body 0)), Unfinished).
Proof.
  apply (InsertsStreamCloser_Close_blocks_on_endless_body endless_env sample_closer []
           eq_refl).
  intros k. exists 512. reflexivity.
Defined.

(** X14: an error returned by [Close] of an insertion stream is the
    error of the first step that failed, and the steps after it were not
    made: the error of closing the outbound path, with the response body
    neither read nor closed; or the error of a read, with the response body
    left open; or, after the body was read to its end, the error of closing
    it. *)
Theorem InsertsStreamCloser_Close_error_source env fuel i log log' e :
  InsertsStreamCloser_Close env fuel i log = (log', Done (Some e)) ->
  (on_Close env log (closer_req i) = Some e
   /\ log' = log ++ [CallClose (closer_req i)])
  \/ (exists k,
        on_Read env (log ++ CallClose (closer_req i)
                         :: replicate k (CallRead (closer_resp i)))
          (closer_resp i) = ReadErr e
        /\ log' = log ++ CallClose (closer_req i)
                      :: replicate (S k) (CallRead (closer_resp i)))
  \/ (exists k,
        drained env (log ++ [CallClose (closer_req i)]) (closer_resp i) k
        /\ on_Close env (log ++ CallClose (closer_req i)
                             :: replicate (S k) (CallRead (closer_resp i)))
             (closer_resp i) = Some e
        /\ log' = log ++ CallClose (closer_req i)
                      :: replicate (S k) (CallRead (closer_resp i))
                      ++ [CallClose (closer_resp i)]).
Proof.
  rewrite InsertsStreamCloser_Close_eq.
  destruct (on_Close env log (closer_req i)) as [e0|].
  - intros [= <- <-]. left. auto.
  - destruct (io_Copy_Discard_spec env (closer_resp i) fuel
                (log ++ [CallClose (closer_req i)])) as (k & _ & Hlog & Hout).
    destruct (io_Copy_Discard env fuel (closer_resp i) _) as [log1 [[e1|]| |]];
      try discriminate; simpl in Hlog, Hout; subst log1.
    + intros [= <- <-]. right. left.
      destruct Hout as (k' & -> & Hr). exists k'.
      rewrite <- !app_assoc in *. simpl in *. auto.
    + intros [= <- He]. right. right.
      destruct Hout as (k' & -> & Hd). exists k'.
      rewrite <- !app_assoc in *. simpl in *. auto.
Qed.

Lemma InsertsStreamCloser_Close_error_source_witness :
  (on_Close strict_env [CallClose (PipeReader 0); CallRead (Body 0); CallClose (Body 0)]
     (closer_req sample_closer)
   = Some (ErrMsg "http: read on closed response body")
   /\ [CallClose (PipeReader 0); CallRead (Body 0); CallClose (Body 0);
       CallClose (PipeReader 0); CallRead (Body 0)]
      = [CallClose (PipeReader 0); CallRead (Body 0); CallClose (Body 0)]
          ++ [CallClose (closer_req sample_closer)])
  \/ (exists k,
        on_Read strict_env
          ([CallClose (PipeReader 0); CallRead (Body 0); CallClose (Body 0)]
             ++ CallClose (closer_req sample_closer)
             :: replicate k (CallRead (closer_resp sample_closer)))
          (closer_resp sample_closer)
        = ReadErr (ErrMsg "http: read on closed response body")
        /\ [CallClose (PipeReader 0); CallRead (Body 0); CallClose (Body 0);
            CallClose (PipeReader 0); CallRead (Body 0)]
           = [CallClose (PipeReader 0); CallRead (Body 0); CallClose (Body 0)]
               ++ CallClose (closer_req sample_closer)
               :: replicate (S k) (CallRead (closer_resp sample_closer)))
  \/ (exists k,
        drained strict_env
          ([CallClose (PipeReader 0); CallRead (Body 0); CallClose (Body 0)]
             ++ [CallClose (closer_req sample_closer)])
          (closer_resp sample_closer) k
        /\ on_Close strict_env
             ([CallClose (PipeReader 0); CallRead (Body 0); CallClose (Body 0)]
                ++ CallClose (closer_req sample_closer)
                :: replicate (S k) (CallRead (closer_resp sample_closer)))
             (closer_resp sample_closer)
           = Some (ErrMsg "http: read on closed response body")
        /\ [CallClose (PipeReader 0); CallRead (Body 0); CallClose (Body 0);
            CallClose (PipeReader 0); CallRead (Body 0)]
           = [CallClose (PipeReader 0); CallRead (Body 0); CallClose (Body 0)]
               ++ CallClose (closer_req sample_closer)
               :: replicate (S k) (CallRead (closer_resp sample_closer))
               ++ [CallClose (closer_resp sample_closer)]).
Proof.
  exact (InsertsStreamCloser_Close_error_source strict_env 1 sample_closer
           [CallClose (PipeReader 0); CallRead (Body 0); CallClose (Body 0)]
           _ _ eq_refl).
Defined.

(** ** The administrative requests *)

(** X15: [Healthcheck] makes exactly the calls of [Info]: both send a
    GET for the info path, and once the transport has answered both decode
    one value from the body and close the body, also when the decoding
    fails. *)
Theorem Healthcheck_makes_the_calls_of_Info
    {ExecResult : Type} (adeps : AdminDeps ExecResult) aenv c log :
  fst (Healthcheck adeps aenv c log) = fst (Info adeps aenv c log)
  /\ forall req resp,
      admin_makeRequest adeps (baseURL c) (infoPath adeps) http_MethodGet NoBody
      = Ok req ->
      admin_Do aenv log req = Ok resp ->
      fst (Info adeps aenv c log)
      = log ++ [AdminDo req; AdminDecode (resp_Body resp); AdminClose (resp_Body resp)].
Proof.
  unfold Healthcheck, Info. split.
  - destruct (admin_makeRequest adeps _ _ _ _) as [req|]; [| reflexivity].
    unfold defer, bind, Admin_Do, Admin_Decode, Admin_Close, admin_perform, ret.
    destruct (admin_Do aenv log req) as [resp|]; [| reflexivity].
    destruct (admin_Decode aenv _ _); reflexivity.
  - intros req resp Hr Hd. rewrite Hr.
    unfold defer, bind, Admin_Do, Admin_Decode, Admin_Close, admin_perform, ret.
    rewrite Hd. rewrite <- !app_assoc. reflexivity.
Qed.

(** Both functions on a service that answers with an object. *)
Example Info_and_Healthcheck_run :
  Info plain_admin_deps (admin_env (JObject [("KsqlServerInfo", JNull)])) empty_client []
  = ([AdminDo {| areq_method := "GET"; areq_url := "http://ksql:8088/info";
                 areq_body := NoBody |};
      AdminDecode (Body 0); AdminClose (Body 0)],
     Done ([("KsqlServerInfo", JNull)], None))
  /\ fst (Healthcheck plain_admin_deps (admin_env (JObject [("isHealthy", JBool true)]))
            empty_client [])
     = [AdminDo {| areq_method := "GET"; areq_url := "http://ksql:8088/info";
                   areq_body := NoBody |};
        AdminDecode (Body 0); AdminClose (Body 0)].
Proof. split; reflexivity. Qed.

(** X16: once the transport has answered, [TerminateCluster] reports
    success whatever the answer is: it does not read the response, closes
    its body, and returns no error, also when that close fails. *)
Theorem TerminateCluster_ignores_the_answer
    {ExecResult : Type} (adeps : AdminDeps ExecResult) aenv c payload log req resp :
  admin_marshal adeps (TerminateBody payload) = None ->
  admin_makeRequest adeps (baseURL c) (terminateClusterPath adeps) http_MethodPost
    (TerminateBody payload) = Ok req ->
  admin_Do aenv log req = Ok resp ->
  TerminateCluster adeps aenv c payload log
  = (log ++ [AdminDo req; AdminClose (resp_Body resp)], Done None).
Proof.
  intros Hm Hr Hd. unfold TerminateCluster. rewrite Hm, Hr.
  unfold defer, bind, ret, Admin_Do, Admin_Close, admin_perform. rewrite Hd.
  rewrite <- app_assoc. reflexivity.
Qed.

Lemma TerminateCluster_ignores_the_answer_witness :
  TerminateCluster plain_admin_deps broken_body_env
    empty_client {| DeleteTopicList := ["orders"] |} []
  = ([] ++ [AdminDo {| areq_method := "POST";
                       areq_url := "http://ksql:8088/ksql/terminate";
                       areq_body := TerminateBody {| DeleteTopicList := ["orders"] |} |};
            AdminClose (Body 3)],
     Done None).
Proof.
  exact (TerminateCluster_ignores_the_answer plain_admin_deps broken_body_env empty_client
           {| DeleteTopicList := ["orders"] |} [] _ _ eq_refl eq_refl eq_refl).
Defined.


(** [Exec] on an answer that is one object, and on one that is a list. *)
Example Exec_run :
  Exec plain_admin_deps (admin_env (JObject [("commandId", JString "stream/T/create")]))
    empty_client {| ep_KSQL := "CREATE STREAM T;"; ep_StreamsProperties := [];
                    CommandSequenceNumber := 0%Z |} []
  = ([AdminDo {| areq_method := "POST"; areq_url := "http://ksql:8088/ksql";
                 areq_body := ExecBody {| ep_KSQL := "CREATE STREAM T;";
                                          ep_StreamsProperties := [];
                                          CommandSequenceNumber := 0%Z |} |};
      AdminReadAll (Body 0)],
     Done (Ok [JObject [("commandId", JString "stream/T/create")]]))
  /\ snd (Exec plain_admin_deps (admin_env (JArray [JObject []; JObject []]))
            empty_client {| ep_KSQL := "LIST STREAMS;"; ep_StreamsProperties := [];
                            CommandSequenceNumber := 0%Z |} [])
     = Done (Ok [JObject []; JObject []]).
Proof. split; reflexivity. Qed.

(** ** Closing a row reader without error *)

(** X18: when [Close] of a row reader's body returns no error it has
    made exactly two calls, in this order: the request to the close-query
    path that carries the reader's own query identifier, then the close of
    the reader's body.  It reads nothing, and the response to the request
    is dropped without being closed. *)
Theorem queryStreamReadCloser_Close_terminates_then_closes deps env q log log' :
  queryStreamReadCloser_Close deps env q log = (log', Done None) ->
  exists req,
    makeRequest deps (qs_client_baseURL q) (closeQueryPath deps) http_MethodPost
      (BufBody (EncCloseQuery {| QueryID := queryID q |})) = Ok req
    /\ log' = log ++ [CallDo req; CallClose (qs_body q)]
    /\ on_Close env (log ++ [CallDo req]) (qs_body q) = None.
Proof.
  rewrite queryStreamReadCloser_Close_eq, CloseQuery_eq.
  destruct (marshal deps _); [discriminate |].
  destruct (makeRequest deps _ _ _ _) as [req|]; [| discriminate].
  destruct (on_Do env log req); [| discriminate].
  intros [= <- Hc]. exists req. rewrite <- app_assoc. auto.
Qed.

Lemma queryStreamReadCloser_Close_terminates_then_closes_witness :
  exists req,
    makeRequest plain_deps (qs_client_baseURL (sample_reader "q-9" 4))
      (closeQueryPath plain_deps) http_MethodPost
      (BufBody (EncCloseQuery {| QueryID := queryID (sample_reader "q-9" 4) |})) = Ok req
    /\ [CallDo (close_query_request "q-9"); CallClose (Body 4)]
       = [] ++ [CallDo req; CallClose (qs_body (sample_reader "q-9" 4))]
    /\ on_Close (lenient_env None) ([] ++ [CallDo req]) (qs_body (sample_reader "q-9" 4))
       = None.
Proof.
  exact (queryStreamReadCloser_Close_terminates_then_closes plain_deps (lenient_env None)
           (sample_reader "q-9" 4) [] _ eq_refl).
Defined.
